(** * Society payment portal: the billing and record-derivation logic of [app.py]

    A shallow embedding of the pure and stateful parts of [src/app.py]:
    the month-list helper [get_target_months], the natural sort key
    [natural_key], the roster lookup, the past-dues parsing, the amount
    computation and the proof-of-payment form handler that appends rows to
    the ledger sheet.

    Modelling conventions.
    - Python [str] values are sequences of code points.  The alphabet of the
      model is U+0000..U+00FF together with the rupee sign U+20B9 that the
      source names; on this alphabet the character classes below ([\d],
      [str.isdigit], [str.lower], the white space of [float] and [int]) are
      exactly CPython's.
    - Python [int] is [Z].  A finite Python [float] is represented by the
      rational number it stands for; rounding to binary64 and the range of
      binary64 are not part of the model.  [inf] and [nan] are kept.  The
      interpreter's limit on the length of digit strings given to [int] is
      not part of the model either.
    - A raised exception is a value of [exn]; a computation that may raise
      returns [result].  The ledger sheet is explicit state. *)

From Stdlib Require Import List Ascii String ZArith QArith Bool Lia SpecFloat.
From Stdlib Require Import Sorting.Permutation Sorting.Sorted DecimalString Qcanon.
Import ListNotations.

Open Scope string_scope.
Open Scope list_scope.
Open Scope Z_scope.

(** ** Text *)

Inductive char : Type :=
| Ch (a : ascii)   (* U+0000 .. U+00FF *)
| Rupee.           (* U+20B9 *)

Definition str : Type := list char.

(** A literal written in the model: each character of the Rocq string is
    the code point of the same number.  The literals of this file are
    ASCII. *)
Definition L1 (s : string) : str := map Ch (list_ascii_of_string s).
Coercion L1 : string >-> str.

Definition ord (c : char) : N :=
  match c with
  | Ch a => N_of_ascii a
  | Rupee => 8377%N
  end.

Definition char_eqb (c d : char) : bool := N.eqb (ord c) (ord d).

(** [s == t] on [str]. *)
Fixpoint str_eqb (s t : str) : bool :=
  match s, t with
  | [], [] => true
  | c :: s', d :: t' => char_eqb c d && str_eqb s' t'
  | _, _ => false
  end.

(** [x == lit] where [x] is a [str] or [None]. *)
Definition opt_eqb (x : option str) (lit : str) : bool :=
  match x with
  | Some s => str_eqb s lit
  | None => false
  end.

(** [f"{m}"] for a value that is a [str] or [None]. *)
Definition fmt (x : option str) : str :=
  match x with
  | Some s => s
  | None => L1 "None"
  end.

(** ** Exceptions *)

Inductive exn : Type :=
| TypeError
| ValueError
| ZeroDivisionError
| OverflowError
| IndexError
| GatewayError.

Inductive result (A : Type) : Type :=
| Ok (a : A)
| Raise (e : exn).
Arguments Ok {A} a.
Arguments Raise {A} e.

Definition bind {A B : Type} (r : result A) (k : A -> result B) : result B :=
  match r with
  | Ok a => k a
  | Raise e => Raise e
  end.

Notation "'let*' x ':=' r 'in' k" := (bind r (fun x => k))
  (at level 10, x name, r at level 100, k at level 200).

(** ** Month list of a period: [get_target_months] *)

Definition months_of_year : list (option str) :=
  map (fun m : string => Some (L1 m))
      ["Jan"; "Feb"; "Mar"; "Apr"; "May"; "Jun";
       "Jul"; "Aug"; "Sep"; "Oct"; "Nov"; "Dec"].

(** The result is [None] when the function falls off its end (Python's
    [None]); the elements are [option str] because [month] may be [None]. *)
Definition get_target_months (p_type : str) (year : str)
    (qtr month : option str) : option (list (option str)) :=
  if str_eqb p_type "Year" then
    Some months_of_year
  else if str_eqb p_type "Quarter" then
    if opt_eqb qtr "Q1" then Some [Some (L1 "Jan"); Some (L1 "Feb"); Some (L1 "Mar")]
    else if opt_eqb qtr "Q2" then Some [Some (L1 "Apr"); Some (L1 "May"); Some (L1 "Jun")]
    else if opt_eqb qtr "Q3" then Some [Some (L1 "Jul"); Some (L1 "Aug"); Some (L1 "Sep")]
    else if opt_eqb qtr "Q4" then Some [Some (L1 "Oct"); Some (L1 "Nov"); Some (L1 "Dec")]
    else None
  else
    Some [month].

(** ** Amount due: [auto_amount] *)

Section Configuration.

Variable MONTHLY_FEE : Z.

Definition auto_amount (period_type : str) : Z :=
  if str_eqb period_type "Year" then MONTHLY_FEE * 12
  else if str_eqb period_type "Quarter" then MONTHLY_FEE * 3
  else MONTHLY_FEE * 1.

End Configuration.

(** The fee configured in the source. *)
Definition MONTHLY_FEE : Z := 300.

(** ** Character classes and the numeric builtins *)

Definition in_range (lo hi : N) (c : char) : bool :=
  ((lo <=? ord c) && (ord c <=? hi))%N.

(** [\d] in a [str] pattern: the decimal digits (category Nd). *)
Definition re_digit (c : char) : bool := in_range 48 57 c.

(** The characters [str.isdigit] accepts: the decimal digits and the
    superscripts U+00B2, U+00B3 and U+00B9. *)
Definition char_isdigit (c : char) : bool :=
  re_digit c || (ord c =? 178)%N || (ord c =? 179)%N || (ord c =? 185)%N.

(** [s.isdigit()]: non-empty and every character a digit. *)
Definition isdigit (s : str) : bool :=
  match s with
  | [] => false
  | _ :: _ => forallb char_isdigit s
  end.

(** [s.lower()]: A-Z, U+00C0..U+00D6 and U+00D8..U+00DE move up by 32. *)
Definition char_lower (c : char) : char :=
  match c with
  | Ch a =>
      if in_range 65 90 c || in_range 192 214 c || in_range 216 222 c
      then Ch (ascii_of_N (N_of_ascii a + 32))
      else c
  | Rupee => Rupee
  end.

Definition lower (s : str) : str := map char_lower s.

(** White space that [int] and [float] skip at both ends of their
    argument: the ASCII white space, U+0085 and U+00A0. *)
Definition num_space (c : char) : bool :=
  in_range 9 13 c || (ord c =? 32)%N || (ord c =? 133)%N || (ord c =? 160)%N.

Fixpoint dropwhile {A : Type} (p : A -> bool) (l : list A) : list A :=
  match l with
  | [] => []
  | x :: l' => if p x then dropwhile p l' else l
  end.

Fixpoint span {A : Type} (p : A -> bool) (l : list A) : list A * list A :=
  match l with
  | [] => ([], [])
  | x :: l' =>
      if p x then let (a, b) := span p l' in (x :: a, b) else ([], l)
  end.

Definition strip_space (s : str) : str :=
  rev (dropwhile num_space (rev (dropwhile num_space s))).

Definition is_char (lit : string) (c : char) : bool :=
  match L1 lit with
  | [d] => char_eqb c d
  | _ => false
  end.

(** An underscore of a numeric literal must stand between two digits;
    the literal is then read without its underscores. *)
Fixpoint drop_underscores (prev : option char) (s : str) : option str :=
  match s with
  | [] => Some []
  | c :: s' =>
      if is_char "_" c then
        match prev, s' with
        | Some p, d :: _ =>
            if re_digit p && re_digit d then drop_underscores (Some c) s'
            else None
        | _, _ => None
        end
      else
        match drop_underscores (Some c) s' with
        | Some r => Some (c :: r)
        | None => None
        end
  end.

(** Value of a run of decimal digits, most significant first. *)
Definition digit_val (c : char) : Z := Z.of_N (ord c) - 48.

Definition digits_val (s : str) : Z :=
  fold_left (fun acc c => 10 * acc + digit_val c) s 0.

Definition read_sign (s : str) : bool * str :=
  match s with
  | c :: s' =>
      if is_char "-" c then (true, s')
      else if is_char "+" c then (false, s')
      else (false, s)
  | [] => (false, [])
  end.

Definition signed (neg : bool) (z : Z) : Z := if neg then - z else z.

(** [int(s)] in base 10. *)
Definition py_int (s : str) : result Z :=
  match drop_underscores None (strip_space s) with
  | None => Raise ValueError
  | Some t =>
      let (neg, u) := read_sign t in
      match u with
      | [] => Raise ValueError
      | _ :: _ =>
          if forallb re_digit u then Ok (signed neg (digits_val u))
          else Raise ValueError
      end
  end.

(** Python floats. *)
Inductive float : Type :=
| Fin (q : Q)
| Inf (neg : bool)
| NaN.

Definition pow10 (e : Z) : Q :=
  if 0 <=? e then inject_Z (10 ^ e) else Qinv (inject_Z (10 ^ (- e))).

Definition decimal (neg : bool) (mantissa exponent : Z) : float :=
  Fin (Qred (inject_Z (signed neg mantissa) * pow10 exponent)).

(** [float(s)]: sign, then [inf], [infinity] or [nan] in any case, or a
    decimal number with an optional fraction and an optional exponent. *)
Definition py_float (s : str) : result float :=
  match drop_underscores None (strip_space s) with
  | None => Raise ValueError
  | Some t =>
      let (neg, u) := read_sign t in
      if str_eqb (lower u) "inf" || str_eqb (lower u) "infinity" then Ok (Inf neg)
      else if str_eqb (lower u) "nan" then Ok NaN
      else
        let (ip, r1) := span re_digit u in
        let (fp, r2) :=
          match r1 with
          | c :: r => if is_char "." c then span re_digit r else ([], r1)
          | [] => ([], r1)
          end in
        match ip ++ fp with
        | [] => Raise ValueError
        | m =>
            let scale := - Z.of_nat (List.length fp) in
            match r2 with
            | [] => Ok (decimal neg (digits_val m) scale)
            | c :: r3 =>
                if is_char "e" c || is_char "E" c then
                  let (eneg, r4) := read_sign r3 in
                  match r4 with
                  | [] => Raise ValueError
                  | _ :: _ =>
                      if forallb re_digit r4
                      then Ok (decimal neg (digits_val m)
                                 (signed eneg (digits_val r4) + scale))
                      else Raise ValueError
                  end
                else Raise ValueError
            end
        end
  end.

(** [int(x)] of a float: truncation towards zero. *)
Definition int_of_float (x : float) : result Z :=
  match x with
  | Fin q => Ok (Z.quot (Qnum q) (Z.pos (Qden q)))
  | Inf _ => Raise OverflowError
  | NaN => Raise ValueError
  end.

(** [x > 0] of a float. *)
Definition float_gt0 (x : float) : bool :=
  match x with
  | Fin q => 0 <? Qnum q
  | Inf neg => negb neg
  | NaN => false
  end.

(** [a / b] on ints: true division. *)
Definition py_truediv (a b : Z) : result float :=
  if b =? 0 then Raise ZeroDivisionError
  else Ok (Fin (Qred (inject_Z a / inject_Z b))).

(** The same division in binary64, for operands that are exact as
    floats: the quotient rounded to nearest, ties to even. *)
Definition b64_of_Z (z : Z) : spec_float := binary_normalize 53 1024 z 0 false.

Definition b64_truediv (a b : Z) : spec_float :=
  SFdiv 53 1024 (b64_of_Z a) (b64_of_Z b).

(** ** Natural sort key: [natural_key] *)

(** [re.split(r'(\d+)', s)]: the pieces between the maximal digit runs,
    with the runs themselves at the odd positions. *)
Fixpoint re_split_digits (s : str) : list str :=
  match s with
  | [] => [[]]
  | c :: s' =>
      match re_split_digits s' with
      | piece :: rest =>
          if re_digit c then
            match piece, rest with
            | [], run :: rest' => [] :: (c :: run) :: rest'
            | _, _ => [] :: [c] :: piece :: rest
            end
          else (c :: piece) :: rest
      | [] => []
      end
  end.

Inductive token : Type :=
| TInt (n : Z)
| TStr (s : str).

Fixpoint map_result {A B : Type} (f : A -> result B) (l : list A)
  : result (list B) :=
  match l with
  | [] => Ok []
  | x :: l' =>
      let* y := f x in
      let* ys := map_result f l' in
      Ok (y :: ys)
  end.

Definition key_token (c : str) : result token :=
  if isdigit c then let* n := py_int c in Ok (TInt n)
  else Ok (TStr (lower c)).

Definition natural_key (text : str) : result (list token) :=
  map_result key_token (re_split_digits text).

(** Comparison of keys: Python's comparison of lists of ints and strs. *)

Fixpoint str_ltb (s t : str) : bool :=
  match s, t with
  | _, [] => false
  | [], _ :: _ => true
  | c :: s', d :: t' =>
      (ord c <? ord d)%N || ((ord c =? ord d)%N && str_ltb s' t')
  end.

Definition token_eqb (x y : token) : bool :=
  match x, y with
  | TInt m, TInt n => m =? n
  | TStr s, TStr t => str_eqb s t
  | _, _ => false
  end.

Definition token_lt (x y : token) : result bool :=
  match x, y with
  | TInt m, TInt n => Ok (m <? n)
  | TStr s, TStr t => Ok (str_ltb s t)
  | _, _ => Raise TypeError
  end.

(** [v == w] on lists. *)
Fixpoint key_eqb (v w : list token) : bool :=
  match v, w with
  | [], [] => true
  | x :: v', y :: w' => token_eqb x y && key_eqb v' w'
  | _, _ => false
  end.

(** [v < w] on lists: the first position where the elements differ
    decides, else the shorter list is the smaller. *)
Fixpoint key_lt (v w : list token) : result bool :=
  match v, w with
  | _, [] => Ok false
  | [], _ :: _ => Ok true
  | x :: v', y :: w' =>
      if token_eqb x y then key_lt v' w' else token_lt x y
  end.

(** [sorted(l, key=natural_key)]: every key is computed first, then the
    items are ordered by [<] on their keys; the sort is stable. *)

Fixpoint insert_by_key {A : Type} (x : list token * A)
    (l : list (list token * A)) : result (list (list token * A)) :=
  match l with
  | [] => Ok [x]
  | y :: l' =>
      let* before := key_lt (fst y) (fst x) in
      if before : bool then
        let* r := insert_by_key x l' in Ok (y :: r)
      else Ok (x :: l)
  end.

Fixpoint sort_by_key {A : Type} (l : list (list token * A))
  : result (list (list token * A)) :=
  match l with
  | [] => Ok []
  | x :: l' => let* r := sort_by_key l' in insert_by_key x r
  end.

Definition sorted_natural (l : list str) : result (list str) :=
  let* keyed := map_result (fun s => let* k := natural_key s in Ok (k, s)) l in
  let* r := sort_by_key keyed in
  Ok (map snd r).

(** ** The roster: [df] after loading *)

Record resident : Type := {
  Lane_No : str;
  Plot_No : str;
  Name : str;
  Past_Dues : str   (* [str(resident_data['Past Dues'])] *)
}.

Record roster : Type := {
  residents : list resident;
  has_past_dues : bool   (* ['Past Dues' in df.columns] *)
}.

(** [Series.unique()]: the values in order of first appearance. *)
Fixpoint unique (l : list str) : list str :=
  match l with
  | [] => []
  | x :: l' => x :: filter (fun y => negb (str_eqb x y)) (unique l')
  end.

Definition unique_lanes (df : roster) : result (list str) :=
  sorted_natural (unique (map Lane_No (residents df))).

Definition filtered_plots (df : roster) (selected_lane : str)
  : result (list str) :=
  sorted_natural
    (unique (map Plot_No
       (filter (fun r => str_eqb (Lane_No r) selected_lane) (residents df)))).

(** [df[df['Plot No.'] == plot_no].iloc[0]] *)
Definition resident_data (df : roster) (plot_no : str) : result resident :=
  match filter (fun r => str_eqb (Plot_No r) plot_no) (residents df) with
  | r :: _ => Ok r
  | [] => Raise IndexError
  end.

(** ** Past dues *)

(** [s.replace(c, '')] for a one-character [c]. *)
Definition remove_char (c : char) (s : str) : str :=
  filter (fun d => negb (char_eqb d c)) s.

(** The value of [past_dues] after the [try]: a float, or the int 0 of
    the [except] branch. *)
Inductive number : Type :=
| NInt (z : Z)
| NFloat (x : float).

Definition parse_past_dues (text : str) : number :=
  match py_float (remove_char Rupee (remove_char (Ch ",") text)) with
  | Ok x => NFloat x
  | Raise _ => NInt 0
  end.

Definition number_gt0 (n : number) : bool :=
  match n with
  | NInt z => 0 <? z
  | NFloat x => float_gt0 x
  end.

Definition int_of_number (n : number) : result Z :=
  match n with
  | NInt z => Ok z
  | NFloat x => int_of_float x
  end.

(** What the identity column shows next to the resident's name. *)
Inductive banner : Type :=
| Overdue (name : str) (rupees : Z)   (* [st.error]: past dues *)
| NoPastDues (name : str)             (* [st.success] *)
| NameOnly (name : str).              (* [st.info] *)

Definition dues_banner (df : roster) (r : resident) : result banner :=
  if has_past_dues df then
    let past_dues := parse_past_dues (Past_Dues r) in
    if number_gt0 past_dues then
      let* shown := int_of_number past_dues in Ok (Overdue (Name r) shown)
    else Ok (NoPastDues (Name r))
  else Ok (NameOnly (Name r)).

(** ** The ledger sheet *)

Inductive value : Type :=
| VStr (s : str)
| VInt (z : Z)
| VFloat (x : float).

Definition row : Type := list value.

(** The remote sheet: whether it can be opened, and its rows. *)
Record remote : Type := {
  reachable : bool;
  ledger : list row
}.

(** Computations on the sheet: they may raise, and they keep the rows
    written before the exception. *)
Definition M (A : Type) : Type := remote -> result A * remote.

Definition ret {A : Type} (a : A) : M A := fun w => (Ok a, w).

Definition lift {A : Type} (r : result A) : M A := fun w => (r, w).

Definition bindM {A B : Type} (c : M A) (k : A -> M B) : M B :=
  fun w =>
    match c w with
    | (Ok a, w') => k a w'
    | (Raise e, w') => (Raise e, w')
    end.

(** [try: c  except Exception as e: h e] *)
Definition try_except {A : Type} (c : M A) (h : exn -> M A) : M A :=
  fun w =>
    match c w with
    | (Ok a, w') => (Ok a, w')
    | (Raise e, w') => h e w'
    end.

Notation "'do' x '<-' c ';' k" := (bindM c (fun x => k))
  (at level 10, x name, c at level 100, k at level 200).

Definition get_google_sheet : M unit :=
  fun w => if reachable w then (Ok tt, w) else (Raise GatewayError, w).

Definition append_row (r : row) : M unit :=
  fun w => (Ok tt, {| reachable := reachable w; ledger := ledger w ++ [r] |}).

Fixpoint for_each {A : Type} (f : A -> M unit) (l : list A) : M unit :=
  match l with
  | [] => ret tt
  | x :: l' => do _ <- f x; for_each f l'
  end.

(** ** The proof-of-payment form *)

Record selection : Type := {
  period_type : str;
  selected_year : str;
  selected_qtr : option str;
  selected_month : option str
}.

Record proof_form : Type := {
  amount_paid_user : Z;
  txn_id : str;
  uploaded_file : option str;   (* the uploaded file, if any *)
  paid_confirm : bool
}.

Inductive feedback : Type :=
| StError (msg : str)
| StErrorExn (e : exn)   (* [st.error(f"Error: {e}")] *)
| StSuccess (msg : str).

(** [len(x)] where [x] is a list or [None]. *)
Definition py_len {A : Type} (x : option (list A)) : result Z :=
  match x with
  | Some l => Ok (Z.of_nat (List.length l))
  | None => Raise TypeError
  end.

Definition split_amount (amount_paid_user : Z)
    (target_months : option (list (option str))) : result value :=
  let* n := py_len target_months in
  if 0 <? n then
    let* q := py_truediv amount_paid_user n in Ok (VFloat q)
  else Ok (VInt amount_paid_user).

Definition truthy (s : str) : bool :=
  match s with
  | [] => false
  | _ :: _ => true
  end.

Definition is_some {A : Type} (x : option A) : bool :=
  match x with
  | Some _ => true
  | None => false
  end.

Section Submission.

Variables (current_time plot_no resident_name : str).
Variable sel : selection.
Variable form : proof_form.

Definition ledger_row (split : value) (final_txn receipt_status : str)
    (m : option str) : row :=
  [ VStr current_time; VStr plot_no; VStr resident_name;
    VStr (fmt m ++ L1 " " ++ selected_year sel);
    split; VStr final_txn; VStr receipt_status;
    VStr (L1 "Part of " ++ period_type sel); VStr "Pending" ].

Definition record_payment : M feedback :=
  try_except
    (let target_months :=
       get_target_months (period_type sel) (selected_year sel)
                         (selected_qtr sel) (selected_month sel) in
     do split <- lift (split_amount (amount_paid_user form) target_months);
     let receipt_status : str :=
       if is_some (uploaded_file form) then "Uploaded" else "None" in
     let final_txn : str :=
       if truthy (txn_id form) then txn_id form else "Screenshot" in
     do _ <- get_google_sheet;
     let rows_to_add :=
       match target_months with
       | Some months => map (ledger_row split final_txn receipt_status) months
       | None => []
       end in
     do _ <- for_each append_row rows_to_add;
     ret (StSuccess "Saved!"))
    (fun e => ret (StErrorExn e)).

(** The body of [if st.form_submit_button(...)]. *)
Definition submit : M feedback :=
  if negb (paid_confirm form) then
    ret (StError "Please confirm the checkbox.")
  else if negb (truthy (txn_id form)) && negb (is_some (uploaded_file form)) then
    ret (StError "Provide UTR or Screenshot.")
  else record_payment.

End Submission.

(** ** One run of the page *)

Record session : Type := {
  selected_lane : str;
  selected_plot : str;
  chosen : selection;
  filled : proof_form;
  submitted : bool;   (* the submit button was pressed *)
  now : str           (* [datetime.now().strftime(...)] *)
}.

Record view : Type := {
  lane_options : list str;
  plot_options : list str;
  shown_name : str;
  shown_banner : banner;
  shown_feedback : option feedback
}.

(** The script from the lane selector to the form; an exception that no
    [try] catches ends the run. *)
Definition page (df : roster) (ss : session) : M view :=
  do lanes <- lift (unique_lanes df);
  do plots <- lift (filtered_plots df (selected_lane ss));
  let plot_no := selected_plot ss in
  do person <- lift (resident_data df plot_no);
  let resident_name := Name person in
  do msg <- lift (dues_banner df person);
  do fb <-
    (if submitted ss then
       do f <- submit (now ss) plot_no resident_name (chosen ss) (filled ss);
       ret (Some f)
     else ret None);
  ret {| lane_options := lanes; plot_options := plots;
         shown_name := resident_name; shown_banner := msg;
         shown_feedback := fb |}.

(** ** Reading the ledger *)

(** The columns of a ledger row, by position in the list that
    [ledger_row] builds. *)
Definition col_Date : nat := 0.
Definition col_Plot_No : nat := 1.
Definition col_Name : nat := 2.
Definition col_Period : nat := 3.
Definition col_Amount : nat := 4.
Definition col_Transaction_ID : nat := 5.
Definition col_Receipt : nat := 6.
Definition col_Note : nat := 7.
Definition col_Verified : nat := 8.

Definition cell (col : nat) (r : row) : option value := nth_error r col.



(** The rows a run has added to the sheet. *)
Definition appended (before after : remote) (rows : list row) : Prop :=
  ledger after = ledger before ++ rows.

(** [natural_key(a) < natural_key(b)] and [natural_key(a) == natural_key(b)]. *)
Definition natural_lt (a b : str) : result bool :=
  let* ka := natural_key a in
  let* kb := natural_key b in
  key_lt ka kb.

Definition natural_eq (a b : str) : result bool :=
  let* ka := natural_key a in
  let* kb := natural_key b in
  Ok (key_eqb ka kb).

(** ** Example data *)

(** A roster in which plot "5" exists in lane "1" and in lane "2". *)
Definition two_lanes : roster :=
  {| residents :=
       [ {| Lane_No := "1"; Plot_No := "5"; Name := "Asha"; Past_Dues := "0" |};
         {| Lane_No := "2"; Plot_No := "10"; Name := "Chitra"; Past_Dues := "nan" |};
         {| Lane_No := "2"; Plot_No := "5"; Name := "Ben"; Past_Dues := "1,200" |} ];
     has_past_dues := true |}.

Definition q2_2024 : selection :=
  {| period_type := "Quarter"; selected_year := "2024";
     selected_qtr := Some (L1 "Q2"); selected_month := None |}.

Definition paid_900 : proof_form :=
  {| amount_paid_user := 900; txn_id := "UTR123"; uploaded_file := None;
     paid_confirm := true |}.

(** A visit that selects plot "5" in the given lane and submits. *)
Definition visit (lane : str) : session :=
  {| selected_lane := lane; selected_plot := "5"; chosen := q2_2024;
     filled := paid_900; submitted := true; now := "2024-05-01 10:00:00" |}.

Definition empty_sheet : remote := {| reachable := true; ledger := [] |}.

(** The label "12²": the digits 1 and 2 followed by U+00B2. *)
Definition SUPERSCRIPT_TWO : char := Ch "178"%char.

Definition twelve_squared : str := L1 "12" ++ [SUPERSCRIPT_TWO].

(** A roster with that label as a plot number. *)
Definition squared_plot : roster :=
  {| residents :=
       [ {| Lane_No := "1"; Plot_No := "5"; Name := "Asha"; Past_Dues := "0" |};
         {| Lane_No := "1"; Plot_No := twelve_squared; Name := "Dev";
            Past_Dues := "0" |} ];
     has_past_dues := true |}.

(** ** The normal form of a label, after the specification *)

(** Following the specification's words ("digit runs read as numbers,
    non-digit fragments lowercased"): a label is cut into its maximal runs
    of digit and of non-digit characters, each tagged with its kind. *)
Fixpoint runs (s : str) : list (bool * str) :=
  match s with
  | [] => []
  | c :: s' =>
      match runs s' with
      | (d, r) :: rest =>
          if Bool.eqb d (re_digit c) then (d, c :: r) :: rest
          else (re_digit c, [c]) :: (d, r) :: rest
      | [] => [(re_digit c, [c])]
      end
  end.

Definition read_run (x : bool * str) : token :=
  if fst x then TInt (digits_val (snd x)) else TStr (lower (snd x)).

Definition normalize (s : str) : list token := map read_run (runs s).

(** How the pieces of [re_split_digits] arise from the runs: an empty
    piece stands wherever a digit run has no fragment before or after it. *)
Fixpoint pieces (want_fragment : bool) (R : list (bool * str)) : list str :=
  match R with
  | [] => if want_fragment then [[]] else []
  | (true, r) :: R' =>
      if want_fragment then [] :: r :: pieces true R' else r :: pieces true R'
  | (false, r) :: R' => r :: pieces false R'
  end.

(** The same on tokens: the key that belongs to a normal form. *)
Fixpoint pad_key (want_str : bool) (l : list token) : list token :=
  match l with
  | [] => if want_str then [TStr []] else []
  | TInt n :: l' =>
      if want_str then TStr [] :: TInt n :: pad_key true l'
      else TInt n :: pad_key true l'
  | TStr s :: l' => TStr s :: pad_key false l'
  end.

(** Keys alternate between strings and numbers. *)
Fixpoint key_shape (want_str : bool) (k : list token) : bool :=
  match k with
  | [] => true
  | TStr _ :: k' => want_str && key_shape false k'
  | TInt _ :: k' => negb want_str && key_shape true k'
  end.

Definition nonempty_token (t : token) : bool :=
  match t with
  | TStr [] => false
  | _ => true
  end.

(** ** Invariants used in the proofs *)

(** Runs are non-empty, hold characters of their kind only, and change
    kind from one to the next. *)
Fixpoint runs_wf (R : list (bool * str)) : Prop :=
  match R with
  | [] => True
  | (d, r) :: R' =>
      r <> []
      /\ Forall (fun c => re_digit c = d) r
      /\ match R' with
         | (d', _) :: _ => d' = negb d
         | [] => True
         end
      /\ runs_wf R'
  end.

(** After a fragment the next run, if any, is a digit run. *)
Definition starts_ok (want_fragment : bool) (R : list (bool * str)) : Prop :=
  match R with
  | (d, _) :: _ => want_fragment = false -> d = true
  | [] => True
  end.

(** What [re.split(r'(\d+)', s)] promises of its result: fragments without
    digits alternate with non-empty digit runs, a fragment stands first and
    last, and only the first and the last fragment may be empty. *)
Fixpoint split_ok (first : bool) (l : list str) : Prop :=
  match l with
  | [] => False
  | [f] => Forall (fun c => re_digit c = false) f
  | f :: d :: l' =>
      Forall (fun c => re_digit c = false) f
      /\ (first = true \/ f <> [])
      /\ d <> []
      /\ Forall (fun c => re_digit c = true) d
      /\ split_ok false l'
  end.

(** The list is empty or starts with a character of the class. *)
Definition starts_with (p : char -> bool) (x : str) : Prop :=
  match x with
  | [] => True
  | c :: _ => p c = true
  end.

(** [b] does not sort before [a]: the order of neighbours in a sorted list. *)
Definition keyed_le {A : Type} (a b : list token * A) : Prop :=
  key_lt (fst b) (fst a) = Ok false.

Definition natural_le (a b : str) : Prop := natural_lt b a = Ok false.

(** ** The period widgets and the payment link *)

(** [str(z)] of an int: its decimal numeral. *)
Definition str_of_Z (z : Z) : str := L1 (NilZero.string_of_int (Z.to_int z)).

(** [range(a, b)] *)
Definition py_range (a b : Z) : list Z :=
  map (fun i => a + Z.of_nat i) (seq 0 (Z.to_nat (b - a))).

Definition PERIOD_OPTIONS : list str := [L1 "Year"; L1 "Quarter"; L1 "Month"].

Definition QTR_OPTIONS : list str := [L1 "Q1"; L1 "Q2"; L1 "Q3"; L1 "Q4"].

Definition MONTH_OPTIONS : list str :=
  map L1 ["Jan"; "Feb"; "Mar"; "Apr"; "May"; "Jun";
          "Jul"; "Aug"; "Sep"; "Oct"; "Nov"; "Dec"].

Definition years : list str := map str_of_Z (py_range 2022 2029).

(** What the visitor picks: a position in each widget's list of options. *)
Record clicks : Type := {
  radio_ix : nat;   (* in ["Year", "Quarter", "Month"] *)
  year_ix : nat;    (* in [years] *)
  t2_ix : nat       (* in the quarter or month list, when one is shown *)
}.

(** A radio group or select box returns the option at the picked
    position; there is no result for a position outside the options. *)
Definition pick {A : Type} (options : list A) (ix : nat) : option A :=
  nth_error options ix.

(** The period widgets: the quarter box is shown for "Quarter" only, the
    month box for "Month" only, and what is not shown stays [None]. *)
Definition period_widgets (c : clicks) : option selection :=
  match pick PERIOD_OPTIONS (radio_ix c), pick years (year_ix c) with
  | Some p, Some y =>
      if str_eqb p "Quarter" then
        match pick QTR_OPTIONS (t2_ix c) with
        | Some q => Some {| period_type := p; selected_year := y;
                            selected_qtr := Some q; selected_month := None |}
        | None => None
        end
      else if str_eqb p "Month" then
        match pick MONTH_OPTIONS (t2_ix c) with
        | Some m => Some {| period_type := p; selected_year := y;
                            selected_qtr := None; selected_month := Some m |}
        | None => None
        end
      else Some {| period_type := p; selected_year := y;
                   selected_qtr := None; selected_month := None |}
  | _, _ => None
  end.

Definition SOCIETY_UPI_ID : str := "treasurer@upi".
Definition SOCIETY_NAME_SHORT : str := "RPE Association".

Definition note_suffix (sel : selection) : str :=
  if str_eqb (period_type sel) "Year" then selected_year sel
  else if str_eqb (period_type sel) "Quarter"
       then fmt (selected_qtr sel) ++ L1 "_" ++ selected_year sel
  else fmt (selected_month sel) ++ L1 "_" ++ selected_year sel.

Definition upi_note (plot_no : str) (sel : selection) : str :=
  plot_no ++ L1 "_" ++ note_suffix sel.

Definition upi_url (fee : Z) (plot_no : str) (sel : selection) : str :=
  L1 "upi://pay?pa=" ++ SOCIETY_UPI_ID ++ L1 "&pn=" ++ SOCIETY_NAME_SHORT
  ++ L1 "&am=" ++ str_of_Z (auto_amount fee (period_type sel))
  ++ L1 "&tn=" ++ upi_note plot_no sel.

(** Every selection the widgets can produce. *)
Definition all_clicks : list clicks :=
  flat_map (fun r => flat_map (fun y => map (fun t =>
     {| radio_ix := r; year_ix := y; t2_ix := t |}) (seq 0 12)) (seq 0 7))
     (seq 0 3).

Definition opt_str_eqb (x y : option str) : bool :=
  match x, y with
  | Some s, Some t => str_eqb s t
  | None, None => true
  | _, _ => false
  end.

Definition selection_eqb (a b : selection) : bool :=
  str_eqb (period_type a) (period_type b)
  && str_eqb (selected_year a) (selected_year b)
  && opt_str_eqb (selected_qtr a) (selected_qtr b)
  && opt_str_eqb (selected_month a) (selected_month b).

(** The number of months a period type stands for. *)
Definition months_in (period_type : str) : Z :=
  if str_eqb period_type "Year" then 12
  else if str_eqb period_type "Quarter" then 3
  else 1.

Definition year_selection (y : str) : selection :=
  {| period_type := "Year"; selected_year := y;
     selected_qtr := None; selected_month := None |}.

Definition quarter_selection (y q : str) : selection :=
  {| period_type := "Quarter"; selected_year := y;
     selected_qtr := Some q; selected_month := None |}.

Definition month_selection (y m : str) : selection :=
  {| period_type := "Month"; selected_year := y;
     selected_qtr := None; selected_month := Some m |}.

(** The selections the widgets can hand over. *)
Definition reachable_selections : list selection :=
  flat_map (fun y => year_selection y
                     :: map (quarter_selection y) QTR_OPTIONS
                     ++ map (month_selection y) MONTH_OPTIONS) years.

(** ** The form handler over a gateway that can fail *)

(** The two calls the handler makes on the sheet, over any state [W]. *)
Class Gateway (W : Type) : Type := {
  open_sheet : W -> result unit * W;          (* [get_google_sheet()] *)
  append : row -> W -> result unit * W        (* [sheet.append_row(row)] *)
}.

#[export] Instance reliable_gateway : Gateway remote :=
  {| open_sheet := get_google_sheet; append := append_row |}.

(** A sheet whose calls succeed a given number of times and fail from
    then on; a failed call writes nothing. *)
Record flaky : Type := {
  sheet_rows : list row;
  calls_left : nat
}.

Definition flaky_open (w : flaky) : result unit * flaky :=
  match calls_left w with
  | O => (Raise GatewayError, w)
  | S n => (Ok tt, {| sheet_rows := sheet_rows w; calls_left := n |})
  end.

Definition flaky_append (r : row) (w : flaky) : result unit * flaky :=
  match calls_left w with
  | O => (Raise GatewayError, w)
  | S n => (Ok tt, {| sheet_rows := sheet_rows w ++ [r]; calls_left := n |})
  end.

#[export] Instance flaky_gateway : Gateway flaky :=
  {| open_sheet := flaky_open; append := flaky_append |}.

Section OverGateway.

Context {W : Type} `{Gateway W}.

Definition then_ {A B : Type} (c : W -> result A * W)
    (k : A -> W -> result B * W) : W -> result B * W :=
  fun w =>
    match c w with
    | (Ok a, w') => k a w'
    | (Raise e, w') => (Raise e, w')
    end.

Fixpoint append_all (rows : list row) : W -> result unit * W :=
  match rows with
  | [] => fun w => (Ok tt, w)
  | r :: rows' => then_ (append r) (fun _ => append_all rows')
  end.

Variables (current_time plot_no resident_name : str).
Variable sel : selection.
Variable form : proof_form.

(** [record_payment] with the sheet calls taken from the gateway. *)
Definition record_payment_on : W -> result feedback * W :=
  fun w =>
    let target_months :=
      get_target_months (period_type sel) (selected_year sel)
                        (selected_qtr sel) (selected_month sel) in
    let attempt :=
      then_ (fun w0 => (split_amount (amount_paid_user form) target_months, w0))
        (fun split =>
           let receipt_status : str :=
             if is_some (uploaded_file form) then "Uploaded" else "None" in
           let final_txn : str :=
             if truthy (txn_id form) then txn_id form else "Screenshot" in
           then_ open_sheet (fun _ =>
             let rows_to_add :=
               match target_months with
               | Some months =>
                   map (ledger_row current_time plot_no resident_name sel
                                   split final_txn receipt_status) months
               | None => []
               end in
             then_ (append_all rows_to_add)
                   (fun _ w0 => (Ok (StSuccess "Saved!"), w0)))) in
    match attempt w with
    | (Ok fb, w') => (Ok fb, w')
    | (Raise e, w') => (Ok (StErrorExn e), w')
    end.

Definition submit_on : W -> result feedback * W :=
  if negb (paid_confirm form) then
    fun w => (Ok (StError "Please confirm the checkbox."), w)
  else if negb (truthy (txn_id form)) && negb (is_some (uploaded_file form)) then
    fun w => (Ok (StError "Provide UTR or Screenshot."), w)
  else record_payment_on.

End OverGateway.

(** Example data for the failing gateway: a sheet that answers three calls. *)
Definition q2_months : list (option str) :=
  [Some (L1 "Apr"); Some (L1 "May"); Some (L1 "Jun")].

Definition three_calls : flaky := {| sheet_rows := []; calls_left := 3 |}.

Definition q2_rows (split : value) : list row :=
  map (ledger_row "2024-05-01 10:00:00" "A5" "Asha" q2_2024 split
         "UTR123" "None") q2_months.

(** ** The history view *)

(** The characters [str.strip()] removes: those of [str.isspace]. *)
Definition isspace (c : char) : bool :=
  in_range 9 13 c || in_range 28 32 c || (ord c =? 133)%N || (ord c =? 160)%N.

Definition py_strip (s : str) : str :=
  rev (dropwhile isspace (rev (dropwhile isspace s))).

(** The positions of a label among the column labels. *)
Fixpoint positions_from (start : nat) (label : str) (cols : list str)
  : list nat :=
  match cols with
  | [] => []
  | c :: cols' =>
      if str_eqb c label then start :: positions_from (S start) label cols'
      else positions_from (S start) label cols'
  end.

Definition positions (label : str) (cols : list str) : list nat :=
  positions_from 0 label cols.

(** The [columns=] mapping of [rename]; "Date" and "Period" keep their
    names. *)
Definition rename_column (c : str) : str :=
  if str_eqb c "Amount" then "Amt"
  else if str_eqb c "Transaction ID" then "UTR"
  else if str_eqb c "Verified" || str_eqb c "verified"
          || str_eqb c "Payment verified" then "Status"
  else c.

Definition SHOWN_COLUMNS : list str :=
  [L1 "Date"; L1 "Period"; L1 "Amt"; L1 "UTR"; L1 "Status"].

(** [frame[labels]]: for each label in turn every column that carries it;
    no result when a label is carried by no column (a KeyError). *)
Fixpoint select_positions (labels cols : list str) : option (list nat) :=
  match labels with
  | [] => Some []
  | l :: labels' =>
      match positions l cols, select_positions labels' cols with
      | j :: here, Some rest => Some (j :: here ++ rest)
      | _, _ => None
      end
  end.

Fixpoint set_nth {A : Type} (i : nat) (x : A) (l : list A) : list A :=
  match l, i with
  | [], _ => []
  | _ :: l', O => x :: l'
  | y :: l', S i' => y :: set_nth i' x l'
  end.

Section History.

(** The cells are Python objects of which the view uses only their text;
    [text s] is the [str] object [s] as a cell. *)
Variable cell : Type.
Variable str_of : cell -> str.
Variable text : str -> cell.

(** [pd.DataFrame(sheet.get_all_records())]: the header row gives the keys
    (distinct, they are the keys of a dict), every further row one record
    with a value for each key.  The cells are those of the frame, that is
    after the type inference pandas does on each column; [str_of] is what
    [astype(str)] makes of a cell. *)
Record records : Type := {
  keys : list str;
  values : list (list cell)
}.

Inductive history_view : Type :=
| Shown (columns : list str) (rows : list (list cell))   (* [st.dataframe] *)
| NoRecords        (* [st.info("No records.")] *)
| EmptyLedger      (* [st.info("Empty ledger.")] *)
| Loading.         (* [st.warning("Loading...")], after any exception *)

(** [str(row['Plot No']) == plot_no] for the column at position [i]. *)
Definition reads_plot (i : nat) (plot_no : str) (row : list cell) : bool :=
  match nth_error row i with
  | Some c => str_eqb (str_of c) plot_no
  | None => false
  end.

(** [astype(str)] on the column at position [i]. *)
Definition astype_str_at (i : nat) (row : list cell) : list cell :=
  match nth_error row i with
  | Some c => set_nth i (text (str_of c)) row
  | None => row
  end.

Definition project (idx : list nat) (row : list cell) : list cell :=
  flat_map (fun j => match nth_error row j with
                     | Some c => [c]
                     | None => []
                     end) idx.

(** The body of the history expander.  [fetched] is what the two sheet
    calls returned, [None] when one of them raised.  The result is [None]
    where this model does not follow the source: when more than one column
    is called "Plot No" once the names are stripped. *)
Definition history (fetched : option records) (plot_no : str)
  : option history_view :=
  match fetched with
  | None => Some Loading
  | Some data =>
      match values data with
      | [] => Some EmptyLedger
      | _ :: _ =>
          let names := map py_strip (keys data) in
          match positions "Plot No" names with
          | [] => Some Loading
          | [i] =>
              let history_df := map (astype_str_at i) (values data) in
              let my_history := filter (reads_plot i plot_no) history_df in
              match my_history with
              | [] => Some NoRecords
              | _ :: _ =>
                  let renamed := map rename_column names in
                  let has_status := existsb (fun c => str_eqb c "Status") renamed in
                  let cols := if has_status then renamed
                              else renamed ++ [L1 "Status"] in
                  let rows := if has_status then my_history
                              else map (fun r => r ++ [text "Pending"]) my_history in
                  match select_positions SHOWN_COLUMNS cols with
                  | Some idx =>
                      Some (Shown (flat_map (fun j => match nth_error cols j with
                                                      | Some c => [c]
                                                      | None => []
                                                      end) idx)
                                  (map (project idx) rows))
                  | None => Some Loading
                  end
              end
          | _ :: _ :: _ => None
          end
      end
  end.

End History.

Arguments keys {cell} _.
Arguments values {cell} _.

(** Example data: a ledger with the header of the sheet and two plots;
    cells are their own text. *)
Definition sample_ledger : records str :=
  {| keys := map L1 ["Date"; "Plot No "; "Name"; "Period"; "Amount";
                     "Transaction ID"; "Receipt"; "Note"];
     values :=
       [ map L1 ["2024-05-01"; "A5"; "Asha"; "Apr 2024"; "300.0"; "UTR1";
                 "None"; "Part of Quarter"];
         map L1 ["2024-05-02"; "B7"; "Ben"; "May 2024"; "300.0"; "UTR2";
                 "None"; "Part of Month"];
         map L1 ["2024-05-03"; "A5"; "Asha"; "May 2024"; "300.0"; "UTR3";
                 "Uploaded"; "Part of Quarter"] ] |}.


(** * Theorems *)

Lemma ord_inj (c d : char) : ord c = ord d -> c = d.
Proof.
  destruct c as [a|], d as [b|]; simpl; intros H.
  - f_equal. rewrite <- (ascii_N_embedding a), <- (ascii_N_embedding b).
    now rewrite H.
  - pose proof (N_ascii_bounded a). lia.
  - pose proof (N_ascii_bounded b). lia.
  - reflexivity.
Qed.

Lemma char_eqb_eq (c d : char) : char_eqb c d = true <-> c = d.
Proof.
  unfold char_eqb. rewrite N.eqb_eq. split.
  - apply ord_inj.
  - now intros ->.
Qed.

Lemma str_eqb_eq (s t : str) : str_eqb s t = true <-> s = t.
Proof.
  revert t. induction s as [|c s IH]; intros [|d t]; simpl; try easy.
  rewrite andb_true_iff, char_eqb_eq, IH. split.
  - now intros [-> ->].
  - now intros [= -> ->].
Qed.

Lemma str_eqb_refl (s : str) : str_eqb s s = true.
Proof. now apply str_eqb_eq. Qed.

Lemma str_eqb_neq (s t : str) : str_eqb s t = false <-> s <> t.
Proof.
  rewrite <- str_eqb_eq. destruct (str_eqb s t); split; congruence.
Qed.

(** ** Month lists *)

(** C2. For every year the expansion of a Year is the twelve months Jan..Dec;
    the expansion of a Quarter Q1..Q4 is the three consecutive calendar
    months of that quarter, in calendar order; the expansion of a Month is
    the one-element list of that month. *)
Theorem get_target_months_expansion (year : str) (qtr month : option str) :
  get_target_months "Year" year qtr month
    = Some (map (fun m : string => Some (L1 m))
              ["Jan"; "Feb"; "Mar"; "Apr"; "May"; "Jun";
               "Jul"; "Aug"; "Sep"; "Oct"; "Nov"; "Dec"])
  /\ get_target_months "Quarter" year (Some (L1 "Q1")) month
     = Some [Some (L1 "Jan"); Some (L1 "Feb"); Some (L1 "Mar")]
  /\ get_target_months "Quarter" year (Some (L1 "Q2")) month
     = Some [Some (L1 "Apr"); Some (L1 "May"); Some (L1 "Jun")]
  /\ get_target_months "Quarter" year (Some (L1 "Q3")) month
     = Some [Some (L1 "Jul"); Some (L1 "Aug"); Some (L1 "Sep")]
  /\ get_target_months "Quarter" year (Some (L1 "Q4")) month
     = Some [Some (L1 "Oct"); Some (L1 "Nov"); Some (L1 "Dec")]
  /\ map (fun q : string =>
            get_target_months "Quarter" year (Some (L1 q)) month)
         ["Q1"; "Q2"; "Q3"; "Q4"]
     = map (fun k : nat => Some (firstn 3 (skipn (3 * k) months_of_year)))
           [0; 1; 2; 3]%nat
  /\ (forall m : str,
        get_target_months "Month" year qtr (Some m) = Some [Some m]).
Proof.
  repeat split; intros; reflexivity.
Qed.

Lemma opt_eqb_false (q : option str) (lit : str) :
  q <> Some lit -> opt_eqb q lit = false.
Proof.
  destruct q as [s|]; simpl; [|reflexivity].
  intros H. apply str_eqb_neq. congruence.
Qed.

(** C9. With period type "Quarter" and a quarter that is none of "Q1".."Q4"
    ([None] included) the function returns no list (Python's [None]); with a
    period type other than "Year" and "Quarter" it returns the one-element
    list [[month]], also when [month] is [None]. *)
Theorem get_target_months_fall_through
    (p_type year : str) (qtr month : option str) :
  (p_type = L1 "Quarter" ->
   ~ In qtr [Some (L1 "Q1"); Some (L1 "Q2"); Some (L1 "Q3"); Some (L1 "Q4")] ->
   get_target_months p_type year qtr month = None)
  /\ (p_type <> L1 "Year" -> p_type <> L1 "Quarter" ->
      get_target_months p_type year qtr month = Some [month]).
Proof.
  split.
  - intros -> H. unfold get_target_months.
    change (str_eqb "Quarter" "Year") with false.
    change (str_eqb "Quarter" "Quarter") with true. cbv iota.
    rewrite !opt_eqb_false; [reflexivity | | | |];
      intros E; apply H; rewrite E; simpl; auto.
  - intros Hy Hq. unfold get_target_months.
    apply str_eqb_neq in Hy, Hq. now rewrite Hy, Hq.
Qed.

Lemma get_target_months_fall_through_witness :
  get_target_months "Quarter" "2024" None None = None
  /\ get_target_months "Quarter" "2024" (Some (L1 "Q5")) None = None
  /\ get_target_months "Week" "2024" None None = Some [None].
Proof.
  split; [|split].
  - apply (proj1 (get_target_months_fall_through "Quarter" "2024" None None));
      [reflexivity|].
    simpl. intros [H|[H|[H|[H|[]]]]]; discriminate H.
  - apply (proj1 (get_target_months_fall_through "Quarter" "2024"
                    (Some (L1 "Q5")) None)); [reflexivity|].
    simpl. intros [H|[H|[H|[H|[]]]]]; discriminate H.
  - apply (proj2 (get_target_months_fall_through "Week" "2024" None None));
      intros H; discriminate H.
Defined.

(** ** Amount due *)

(** C4. For every monthly fee the total due is twelve times the fee for a
    Year, three times the fee for a Quarter and the fee itself for a Month. *)
Theorem auto_amount_multiples (fee : Z) :
  auto_amount fee "Year" = 12 * fee
  /\ auto_amount fee "Quarter" = 3 * fee
  /\ auto_amount fee "Month" = 1 * fee.
Proof.
  unfold auto_amount. split; [|split].
  - rewrite str_eqb_refl. cbv iota. lia.
  - change (str_eqb "Quarter" "Year") with false.
    rewrite str_eqb_refl. cbv iota. lia.
  - change (str_eqb "Month" "Year") with false.
    change (str_eqb "Month" "Quarter") with false. cbv iota. lia.
Qed.

Example auto_amount_configured :
  auto_amount MONTHLY_FEE "Year" = 3600
  /\ auto_amount MONTHLY_FEE "Quarter" = 900
  /\ auto_amount MONTHLY_FEE "Month" = 300.
Proof. repeat split. Qed.

(** ** The form handler *)

Lemma for_each_append_row (rows : list row) (w : remote) :
  for_each append_row rows w
  = (Ok tt, {| reachable := reachable w; ledger := ledger w ++ rows |}).
Proof.
  revert w. induction rows as [|r rows IH]; intros w.
  - simpl. unfold ret. rewrite app_nil_r. now destruct w.
  - simpl. unfold bindM, append_row at 1. rewrite IH. simpl.
    now rewrite <- app_assoc.
Qed.

Section HandlerFacts.

Variables (current_time plot_no resident_name : str).
Variable sel : selection.
Variable form : proof_form.

Let receipt_status : str :=
  if is_some (uploaded_file form) then "Uploaded" else "None".
Let final_txn : str :=
  if truthy (txn_id form) then txn_id form else "Screenshot".

(** A run of the recording block on a reachable sheet, for a month list
    and a split that were computed. *)
Lemma record_payment_saved (months : list (option str)) (split : value)
    (w : remote) :
  get_target_months (period_type sel) (selected_year sel)
                    (selected_qtr sel) (selected_month sel) = Some months ->
  split_amount (amount_paid_user form) (Some months) = Ok split ->
  reachable w = true ->
  record_payment current_time plot_no resident_name sel form w
  = (Ok (StSuccess "Saved!"),
     {| reachable := true;
        ledger := ledger w ++
          map (ledger_row current_time plot_no resident_name sel
                          split final_txn receipt_status) months |}).
Proof.
  intros Hm Hs Hr. unfold record_payment, try_except, bindM, lift.
  rewrite Hm, Hs. unfold get_google_sheet. rewrite Hr.
  rewrite for_each_append_row. simpl. now rewrite Hr.
Qed.

(** When no month list comes back, nothing is written and the exception
    is shown. *)
Lemma record_payment_no_list (w : remote) :
  get_target_months (period_type sel) (selected_year sel)
                    (selected_qtr sel) (selected_month sel) = None ->
  record_payment current_time plot_no resident_name sel form w
  = (Ok (StErrorExn TypeError), w).
Proof.
  intros Hm. unfold record_payment, try_except, bindM, lift.
  now rewrite Hm.
Qed.

(** The recording block never lets an exception out, and on an
    unreachable sheet it writes nothing. *)
Lemma record_payment_unreachable (w : remote) :
  reachable w = false ->
  exists e, record_payment current_time plot_no resident_name sel form w
            = (Ok (StErrorExn e), w).
Proof.
  intros Hr. unfold record_payment, try_except, bindM, lift.
  destruct (split_amount _ _) as [v|e]; [|now exists e].
  unfold get_google_sheet. rewrite Hr. now exists GatewayError.
Qed.

End HandlerFacts.

(** C5. A submission with an empty transaction reference and no uploaded file
    is rejected with a validation message and leaves the ledger as it was;
    so is a submission whose confirmation box is not ticked. *)
Theorem submit_rejected (current_time plot_no resident_name : str)
    (sel : selection) (form : proof_form) (w : remote) :
  (txn_id form = [] -> uploaded_file form = None ->
   submit current_time plot_no resident_name sel form w
   = (Ok (StError (if paid_confirm form
                   then L1 "Provide UTR or Screenshot."
                   else L1 "Please confirm the checkbox.")), w))
  /\ (paid_confirm form = false ->
      submit current_time plot_no resident_name sel form w
      = (Ok (StError "Please confirm the checkbox."), w)).
Proof.
  unfold submit. split.
  - intros Ht Hu. rewrite Ht, Hu. now destruct (paid_confirm form).
  - now intros ->.
Qed.

Lemma submit_rejected_witness :
  let sel := {| period_type := "Quarter"; selected_year := "2024";
                selected_qtr := Some (L1 "Q2"); selected_month := None |} in
  let w := {| reachable := true; ledger := [[VStr "old row"]] |} in
  submit "2024-05-01 10:00:00" "A5" "Asha" sel
         {| amount_paid_user := 900; txn_id := []; uploaded_file := None;
            paid_confirm := true |} w
    = (Ok (StError "Provide UTR or Screenshot."), w)
  /\ submit "2024-05-01 10:00:00" "A5" "Asha" sel
         {| amount_paid_user := 900; txn_id := "UTR123"; uploaded_file := None;
            paid_confirm := false |} w
    = (Ok (StError "Please confirm the checkbox."), w).
Proof.
  intros sel w. split.
  - exact (proj1 (submit_rejected "2024-05-01 10:00:00" "A5" "Asha" sel
                    {| amount_paid_user := 900; txn_id := [];
                       uploaded_file := None; paid_confirm := true |} w)
                 eq_refl eq_refl).
  - exact (proj2 (submit_rejected "2024-05-01 10:00:00" "A5" "Asha" sel
                    {| amount_paid_user := 900; txn_id := "UTR123";
                       uploaded_file := None; paid_confirm := false |} w)
                 eq_refl).
Defined.

(** C1. A confirmed submission with a transaction reference or an uploaded
    file, for Quarter Q2 of 2024 and amount paid 900, on a reachable sheet,
    appends exactly three rows, for "Apr 2024", "May 2024" and "Jun 2024" in
    that order, each with amount 300.0 and status "Pending". *)
Theorem submit_quarter_q2_2024 (current_time plot_no resident_name : str)
    (sel : selection) (form : proof_form) (w : remote) :
  period_type sel = L1 "Quarter" ->
  selected_qtr sel = Some (L1 "Q2") ->
  selected_year sel = L1 "2024" ->
  amount_paid_user form = 900 ->
  paid_confirm form = true ->
  txn_id form <> [] \/ uploaded_file form <> None ->
  reachable w = true ->
  exists (w' : remote) (r1 r2 r3 : row),
    submit current_time plot_no resident_name sel form w
      = (Ok (StSuccess "Saved!"), w')
    /\ appended w w' [r1; r2; r3]
    /\ map (cell col_Period) [r1; r2; r3]
       = [Some (VStr "Apr 2024"); Some (VStr "May 2024"); Some (VStr "Jun 2024")]
    /\ (forall r, In r [r1; r2; r3] ->
          cell col_Amount r = Some (VFloat (Fin 300))
          /\ cell col_Verified r = Some (VStr "Pending")
          /\ cell col_Plot_No r = Some (VStr plot_no)
          /\ cell col_Name r = Some (VStr resident_name)
          /\ cell col_Note r = Some (VStr "Part of Quarter")).
Proof.
  intros Hp Hq Hy Ha Hc Hproof Hr.
  assert (Hm : get_target_months (period_type sel) (selected_year sel)
                 (selected_qtr sel) (selected_month sel)
               = Some [Some (L1 "Apr"); Some (L1 "May"); Some (L1 "Jun")])
    by now rewrite Hp, Hq.
  assert (Hs : split_amount (amount_paid_user form)
                 (Some [Some (L1 "Apr"); Some (L1 "May"); Some (L1 "Jun")])
               = Ok (VFloat (Fin 300)))
    by now rewrite Ha.
  pose proof (record_payment_saved current_time plot_no resident_name sel form
                _ _ w Hm Hs Hr) as Hrun.
  eexists _, _, _, _. split; [|split; [|split]].
  - unfold submit. rewrite Hc. simpl negb. cbv iota.
    assert (Hv : negb (truthy (txn_id form))
                 && negb (is_some (uploaded_file form)) = false).
    { destruct Hproof as [H|H].
      - destruct (txn_id form); [congruence | reflexivity].
      - destruct (uploaded_file form); [|congruence].
        simpl. apply andb_false_r. }
    rewrite Hv. exact Hrun.
  - reflexivity.
  - simpl. unfold cell, col_Period. simpl. now rewrite Hy.
  - intros r Hin. simpl in Hin.
    destruct Hin as [<-|[<-|[<-|[]]]];
      unfold cell, ledger_row; simpl; rewrite Hp; repeat split.
Qed.

Lemma submit_quarter_q2_2024_witness :
  exists (w' : remote) (r1 r2 r3 : row),
    submit "2024-05-01 10:00:00" "A5" "Asha"
      {| period_type := "Quarter"; selected_year := "2024";
         selected_qtr := Some (L1 "Q2"); selected_month := None |}
      {| amount_paid_user := 900; txn_id := "UTR123"; uploaded_file := None;
         paid_confirm := true |}
      {| reachable := true; ledger := [] |}
      = (Ok (StSuccess "Saved!"), w')
    /\ appended {| reachable := true; ledger := [] |} w' [r1; r2; r3]
    /\ map (cell col_Period) [r1; r2; r3]
       = [Some (VStr "Apr 2024"); Some (VStr "May 2024"); Some (VStr "Jun 2024")]
    /\ (forall r, In r [r1; r2; r3] ->
          cell col_Amount r = Some (VFloat (Fin 300))
          /\ cell col_Verified r = Some (VStr "Pending")
          /\ cell col_Plot_No r = Some (VStr "A5")
          /\ cell col_Name r = Some (VStr "Asha")
          /\ cell col_Note r = Some (VStr "Part of Quarter")).
Proof.
  apply (submit_quarter_q2_2024 "2024-05-01 10:00:00" "A5" "Asha"
           {| period_type := "Quarter"; selected_year := "2024";
              selected_qtr := Some (L1 "Q2"); selected_month := None |}
           {| amount_paid_user := 900; txn_id := "UTR123";
              uploaded_file := None; paid_confirm := true |}
           {| reachable := true; ledger := [] |});
    try reflexivity.
  left. discriminate.
Defined.

(** In binary64 the share of the scenario is exact: 900 / 3 is 300.0, while
    1000 / 3 is rounded. *)
Example q2_share_exact_in_binary64 :
  b64_truediv 900 3 = b64_of_Z 300
  /\ b64_truediv 1000 3 = S754_finite false 5864062014805333 (-44).
Proof. split; reflexivity. Qed.

(** The three rows of the scenario, written out. *)
Example q2_2024_rows :
  submit "2024-05-01 10:00:00" "A5" "Asha"
    {| period_type := "Quarter"; selected_year := "2024";
       selected_qtr := Some (L1 "Q2"); selected_month := None |}
    {| amount_paid_user := 900; txn_id := "UTR123"; uploaded_file := None;
       paid_confirm := true |}
    {| reachable := true; ledger := [] |}
  = (Ok (StSuccess "Saved!"),
     {| reachable := true;
        ledger :=
          map (fun period : string =>
                 [VStr "2024-05-01 10:00:00"; VStr "A5"; VStr "Asha";
                  VStr period; VFloat (Fin 300); VStr "UTR123"; VStr "None";
                  VStr "Part of Quarter"; VStr "Pending"])
              ["Apr 2024"; "May 2024"; "Jun 2024"] |}).
Proof. reflexivity. Qed.

(** ** Splitting the amount paid *)




(** For the empty month list the loop writes no row: the split value is
    computed and then not used. *)
Lemma empty_month_list_writes_nothing (t p n ft rs : str) (sel : selection)
    (v : value) (w : remote) :
  for_each append_row (map (ledger_row t p n sel v ft rs) []) w = (Ok tt, w).
Proof.
  simpl. reflexivity.
Qed.

(** X3. No month list that [get_target_months] returns is empty, so the
    branch of the split for an empty list is never taken by the form. *)
Lemma get_target_months_nonempty (p_type year : str) (qtr month : option str)
    (L : list (option str)) :
  get_target_months p_type year qtr month = Some L -> L <> [].
Proof.
  unfold get_target_months.
  destruct (str_eqb p_type "Year"); [intros [= <-]; discriminate|].
  destruct (str_eqb p_type "Quarter"); [|intros [= <-]; discriminate].
  repeat (match goal with
          | |- context [if ?b then _ else _] => destruct b
          end; [intros [= <-]; discriminate|]).
  discriminate.
Qed.

Lemma get_target_months_nonempty_witness :
  [Some (L1 "Apr"); Some (L1 "May"); Some (L1 "Jun")] <> [].
Proof.
  exact (get_target_months_nonempty "Quarter" "2024" (Some (L1 "Q2")) None
           _ eq_refl).
Defined.

(** The split never raises on a list: the division is guarded. *)
Lemma split_amount_defined (A : Z) (L : list (option str)) :
  exists v, split_amount A (Some L) = Ok v.
Proof.
  unfold split_amount, py_len, bind, py_truediv.
  destruct (Z.ltb_spec 0 (Z.of_nat (List.length L))); [|eauto].
  destruct (Z.eqb_spec (Z.of_nat (List.length L)) 0); [lia | eauto].
Qed.

(** ** Natural sort key: the examples *)

(** C6. Numbers inside labels compare as numbers, and the other fragments
    compare without regard to case: key("Plot 2") < key("Plot 10") <
    key("Plot 10A"), and key("lane1") == key("Lane1"). *)
Theorem natural_key_examples :
  natural_key "Plot 2" = Ok [TStr "plot "; TInt 2; TStr ""]
  /\ natural_key "Plot 10" = Ok [TStr "plot "; TInt 10; TStr ""]
  /\ natural_key "Plot 10A" = Ok [TStr "plot "; TInt 10; TStr "a"]
  /\ natural_lt "Plot 2" "Plot 10" = Ok true
  /\ natural_lt "Plot 10" "Plot 10A" = Ok true
  /\ natural_key "lane1" = natural_key "Lane1"
  /\ natural_eq "lane1" "Lane1" = Ok true.
Proof.
  repeat split.
Qed.

(** The plain order of the strings puts "Plot 10" before "Plot 2". *)
Example plain_order_differs :
  str_ltb "Plot 10" "Plot 2" = true /\ natural_lt "Plot 10" "Plot 2" = Ok false.
Proof. split; reflexivity. Qed.

(** ** Past dues *)



(** The parsing step returns a number for every text. *)
Lemma parse_past_dues_total (text : str) :
  (exists x, py_float (remove_char Rupee (remove_char (Ch ",") text)) = Ok x
             /\ parse_past_dues text = NFloat x)
  \/ parse_past_dues text = NInt 0.
Proof.
  unfold parse_past_dues.
  destruct (py_float _) as [x|e]; [left; now exists x | now right].
Qed.

(** A rupee sign and separators in front of the digits are removed. *)
Example past_dues_with_rupee_sign :
  parse_past_dues (Rupee :: L1 "1,200") = NFloat (Fin 1200)
  /\ parse_past_dues (Rupee :: L1 " 12,00,000.50") = NFloat (Fin (2400001 # 2))
  /\ parse_past_dues "Rs. 1,200" = NInt 0
  /\ parse_past_dues "" = NInt 0
  /\ parse_past_dues "nan" = NFloat NaN.
Proof. repeat split. Qed.

(** The text "inf" parses; it is greater than 0 and has no integer value,
    so the banner raises. *)
Example past_dues_inf (df : roster) (r : resident) :
  has_past_dues df = true -> Past_Dues r = L1 "inf" ->
  dues_banner df r = Raise OverflowError.
Proof.
  intros Hcol Htext. unfold dues_banner. now rewrite Hcol, Htext.
Qed.

(** A missing cell reads "nan": it parses, and is not greater than 0. *)
Example past_dues_nan (df : roster) (r : resident) :
  has_past_dues df = true -> Past_Dues r = L1 "nan" ->
  dues_banner df r = Ok (NoPastDues (Name r)).
Proof.
  intros Hcol Hcell. unfold dues_banner. now rewrite Hcol, Hcell.
Qed.

(** ** The roster lookup *)

Lemma resident_data_first (df : roster) (plot_no : str) (r : resident) :
  resident_data df plot_no = Ok r <->
  exists pre post,
    residents df = pre ++ r :: post
    /\ Plot_No r = plot_no
    /\ Forall (fun x => Plot_No x <> plot_no) pre.
Proof.
  unfold resident_data. induction (residents df) as [|x l IH]; simpl.
  - split; [discriminate|]. intros (pre & post & H & _). now destruct pre.
  - destruct (str_eqb (Plot_No x) plot_no) eqn:E.
    + apply str_eqb_eq in E. split.
      * intros [= <-]. exists [], l. auto.
      * intros (pre & post & H & Hp & Hpre). destruct pre as [|y pre].
        -- now injection H as ->.
        -- injection H as <- _. inversion Hpre; subst. congruence.
    + apply str_eqb_neq in E. rewrite IH. split.
      * intros (pre & post & -> & Hp & Hpre). exists (x :: pre), post. auto.
      * intros (pre & post & H & Hp & Hpre). destruct pre as [|y pre].
        -- injection H as -> _. congruence.
        -- injection H as <- ->. inversion Hpre; subst. eauto.
Qed.

(** Whatever the outcome, the handler only adds rows, and each of them
    carries the plot and the resident name it was called with. *)
Lemma submit_appends (current_time plot_no resident_name : str)
    (sel : selection) (form : proof_form) (w w' : remote)
    (res : result feedback) :
  submit current_time plot_no resident_name sel form w = (res, w') ->
  exists (fb : feedback) (rows : list row),
    res = Ok fb
    /\ appended w w' rows
    /\ Forall (fun r => cell col_Plot_No r = Some (VStr plot_no)
                        /\ cell col_Name r = Some (VStr resident_name)) rows.
Proof.
  assert (Same : forall fb, (Ok fb, w) = (res, w') ->
            exists (fb : feedback) (rows : list row),
              res = Ok fb /\ appended w w' rows
              /\ Forall (fun r => cell col_Plot_No r = Some (VStr plot_no)
                          /\ cell col_Name r = Some (VStr resident_name)) rows).
  { intros fb [= <- <-]. exists fb, []. unfold appended.
    now rewrite app_nil_r. }
  unfold submit.
  destruct (negb (paid_confirm form)); [apply Same|].
  destruct (negb (truthy (txn_id form)) && negb (is_some (uploaded_file form)));
    [apply Same|].
  unfold record_payment, try_except, bindM, lift.
  destruct (split_amount _ _) as [v|e]; [|apply Same].
  unfold get_google_sheet. destruct (reachable w) eqn:Hr; [|apply Same].
  rewrite for_each_append_row. cbn [ret ledger reachable].
  intros [= <- <-]. eexists _, _. split; [reflexivity|]. split.
  - unfold appended. cbn [ledger]. reflexivity.
  - destruct (get_target_months _ _ _ _) as [months|]; [|constructor].
    apply Forall_forall. intros r Hin. apply in_map_iff in Hin.
    destruct Hin as [m [<- _]]. split; reflexivity.
Qed.

(** What a completed run of the page shows and writes. *)
Lemma page_completed (df : roster) (ss : session) (w w' : remote) (v : view) :
  page df ss w = (Ok v, w') ->
  exists (person : resident) (rows : list row),
    resident_data df (selected_plot ss) = Ok person
    /\ shown_name v = Name person
    /\ appended w w' rows
    /\ Forall (fun r => cell col_Plot_No r = Some (VStr (selected_plot ss))
                        /\ cell col_Name r = Some (VStr (Name person))) rows.
Proof.
  unfold page, bindM at 1 2 3 4, lift.
  destruct (unique_lanes df) as [lanes|e]; [|discriminate].
  destruct (filtered_plots df (selected_lane ss)) as [plots|e]; [|discriminate].
  destruct (resident_data df (selected_plot ss)) as [person|e]; [|discriminate].
  destruct (dues_banner df person) as [msg|e]; [|discriminate].
  unfold bindM. destruct (submitted ss).
  - destruct (submit _ _ _ _ _ w) as [res w1] eqn:Hs.
    apply submit_appends in Hs. destruct Hs as (fb & rows & -> & Happ & Hrows).
    unfold ret. intros [= <- <-]. exists person, rows. auto.
  - unfold ret. intros [= <- <-]. exists person, []. repeat split; auto.
    unfold appended. now rewrite app_nil_r.
Qed.

(** C10. The resident shown and written into the appended rows is the first
    roster row whose plot identifier is the selected plot, whatever lane is
    selected: two completed runs on the same roster with the same selected plot
    show the same resident name and write it into every row they append, even
    when their selected lanes differ. *)
Theorem resident_ignores_lane (df : roster) (ss1 ss2 : session)
    (w1 w1' w2 w2' : remote) (v1 v2 : view) :
  selected_plot ss1 = selected_plot ss2 ->
  page df ss1 w1 = (Ok v1, w1') ->
  page df ss2 w2 = (Ok v2, w2') ->
  exists (pre post : list resident) (person : resident)
         (rows1 rows2 : list row),
    residents df = pre ++ person :: post
    /\ Plot_No person = selected_plot ss1
    /\ Forall (fun x => Plot_No x <> selected_plot ss1) pre
    /\ shown_name v1 = Name person
    /\ shown_name v2 = Name person
    /\ appended w1 w1' rows1
    /\ appended w2 w2' rows2
    /\ Forall (fun r => cell col_Name r = Some (VStr (Name person)))
              (rows1 ++ rows2).
Proof.
  intros Hplot H1 H2.
  apply page_completed in H1, H2.
  destruct H1 as (p1 & rows1 & Hd1 & Hn1 & Ha1 & Hr1).
  destruct H2 as (p2 & rows2 & Hd2 & Hn2 & Ha2 & Hr2).
  rewrite <- Hplot in Hd2. rewrite Hd1 in Hd2. injection Hd2 as <-.
  apply resident_data_first in Hd1. destruct Hd1 as (pre & post & Hres & Hp & Hpre).
  exists pre, post, p1, rows1, rows2. repeat split; auto.
  apply Forall_app. split; eapply Forall_impl; try eassumption;
    now intros r [_ H].
Qed.

Lemma resident_ignores_lane_witness :
  exists (v1 v2 : view) (w1' w2' : remote),
    page two_lanes (visit "1") empty_sheet = (Ok v1, w1')
    /\ page two_lanes (visit "2") empty_sheet = (Ok v2, w2')
    /\ exists (pre post : list resident) (person : resident)
              (rows1 rows2 : list row),
         residents two_lanes = pre ++ person :: post
         /\ Plot_No person = selected_plot (visit "1")
         /\ Forall (fun x => Plot_No x <> selected_plot (visit "1")) pre
         /\ shown_name v1 = Name person
         /\ shown_name v2 = Name person
         /\ appended empty_sheet w1' rows1
         /\ appended empty_sheet w2' rows2
         /\ Forall (fun r => cell col_Name r = Some (VStr (Name person)))
                   (rows1 ++ rows2).
Proof.
  do 4 eexists. split; [cbv; reflexivity|]. split; [cbv; reflexivity|].
  exact (resident_ignores_lane two_lanes (visit "1") (visit "2")
           empty_sheet _ empty_sheet _ _ _ eq_refl eq_refl eq_refl).
Defined.

(** In lane "2" plot "5" is Ben's, and is among the offered plots; the page
    shows and records Asha, whose row comes first in the roster. *)
Example lane_two_plot_five :
  exists (v : view) (w' : remote),
    page two_lanes (visit "2") empty_sheet = (Ok v, w')
    /\ plot_options v = [L1 "5"; L1 "10"]
    /\ shown_name v = L1 "Asha"
    /\ shown_banner v = NoPastDues "Asha"
    /\ map (cell col_Name) (ledger w')
       = [Some (VStr "Asha"); Some (VStr "Asha"); Some (VStr "Asha")]
    /\ map (cell col_Plot_No) (ledger w')
       = [Some (VStr "5"); Some (VStr "5"); Some (VStr "5")].
Proof.
  do 2 eexists. split; [cbv; reflexivity|]. repeat split.
Qed.

(** ** Natural sort key: characters and numbers *)

Ltac ord_cases :=
  unfold char_isdigit, num_space, re_digit, in_range in *;
  repeat match goal with
         | H : context [N.leb ?a ?b] |- _ => destruct (N.leb_spec a b)
         | |- context [N.leb ?a ?b] => destruct (N.leb_spec a b)
         | H : context [N.eqb ?a ?b] |- _ => destruct (N.eqb_spec a b)
         | |- context [N.eqb ?a ?b] => destruct (N.eqb_spec a b)
         end;
  simpl in *; try congruence; try lia.

Lemma is_char_underscore (c : char) : is_char "_" c = (ord c =? 95)%N.
Proof. reflexivity. Qed.

Lemma is_char_minus (c : char) : is_char "-" c = (ord c =? 45)%N.
Proof. reflexivity. Qed.

Lemma is_char_plus (c : char) : is_char "+" c = (ord c =? 43)%N.
Proof. reflexivity. Qed.

Lemma digit_not_space (c : char) : re_digit c = true -> num_space c = false.
Proof. intros H. ord_cases. Qed.

Lemma digit_not_underscore (c : char) :
  re_digit c = true -> is_char "_" c = false.
Proof. rewrite is_char_underscore. intros H. ord_cases. Qed.

Lemma digit_not_sign (c : char) :
  re_digit c = true -> is_char "-" c = false /\ is_char "+" c = false.
Proof. rewrite is_char_minus, is_char_plus. intros H. split; ord_cases. Qed.

Lemma digit_isdigit (c : char) : re_digit c = true -> char_isdigit c = true.
Proof. intros H. unfold char_isdigit. now rewrite H. Qed.

Lemma dropwhile_none {A : Type} (p : A -> bool) (l : list A) :
  Forall (fun x => p x = false) l -> dropwhile p l = l.
Proof.
  intros H. destruct H as [|x l Hx _]; simpl; [reflexivity | now rewrite Hx].
Qed.

Lemma dropwhile_In {A : Type} (p : A -> bool) (l : list A) (x : A) :
  In x (dropwhile p l) -> In x l.
Proof.
  induction l as [|y l IH]; simpl; [easy|].
  destruct (p y); simpl; auto.
Qed.

Lemma strip_space_In (s : str) (c : char) : In c (strip_space s) -> In c s.
Proof.
  unfold strip_space. intros H. apply in_rev in H.
  apply dropwhile_In in H. apply in_rev in H. now apply dropwhile_In in H.
Qed.

Lemma strip_space_digits (r : str) :
  Forall (fun c => re_digit c = true) r -> strip_space r = r.
Proof.
  intros H. unfold strip_space.
  assert (Hs : Forall (fun c => num_space c = false) r)
    by (eapply Forall_impl; [|exact H]; apply digit_not_space).
  rewrite (dropwhile_none _ r Hs).
  rewrite (dropwhile_none _ (rev r)) by now apply Forall_rev.
  apply rev_involutive.
Qed.

Lemma drop_underscores_none (r : str) (prev : option char) :
  Forall (fun c => is_char "_" c = false) r -> drop_underscores prev r = Some r.
Proof.
  intros H. revert prev. induction H as [|c r Hc _ IH]; intros prev; simpl.
  - reflexivity.
  - now rewrite Hc, IH.
Qed.

Lemma drop_underscores_In (s t : str) (prev : option char) (c : char) :
  drop_underscores prev s = Some t -> In c t -> In c s.
Proof.
  revert prev t. induction s as [|d s IH]; intros prev t; simpl.
  - now intros [= <-].
  - destruct (is_char "_" d).
    + destruct prev as [p|]; [|discriminate].
      destruct s as [|e s']; [discriminate|].
      destruct (re_digit p && re_digit e); [|discriminate].
      intros H Hin. right. eapply IH; eassumption.
    + destruct (drop_underscores (Some d) s) as [r|] eqn:E; [|discriminate].
      intros [= <-] [<-|Hin]; [now left | right]. eapply IH; eassumption.
Qed.

Lemma read_sign_In (t u : str) (neg : bool) (c : char) :
  read_sign t = (neg, u) -> In c u -> In c t.
Proof.
  destruct t as [|d t]; simpl.
  - now intros [= _ <-].
  - destruct (is_char "-" d); [intros [= _ <-]; now right|].
    destruct (is_char "+" d); [intros [= _ <-]; now right|].
    now intros [= _ <-].
Qed.

(** [int] accepts a run of decimal digits and reads its decimal value. *)
Lemma py_int_digits (r : str) :
  r <> [] -> Forall (fun c => re_digit c = true) r ->
  py_int r = Ok (digits_val r).
Proof.
  intros Hne H. unfold py_int. rewrite (strip_space_digits r H).
  rewrite drop_underscores_none
    by (eapply Forall_impl; [|exact H]; apply digit_not_underscore).
  destruct r as [|c r]; [congruence|].
  inversion H as [|? ? Hc Hr]; subst.
  unfold read_sign. destruct (digit_not_sign c Hc) as [-> ->].
  assert (Hall : forallb re_digit (c :: r) = true)
    by (apply forallb_forall; now apply Forall_forall).
  now rewrite Hall.
Qed.

(** [int] rejects every text without a decimal digit. *)
Lemma py_int_needs_digit (s : str) (n : Z) :
  py_int s = Ok n -> Exists (fun c => re_digit c = true) s.
Proof.
  unfold py_int.
  destruct (drop_underscores None (strip_space s)) as [t|] eqn:Et;
    [|discriminate].
  destruct (read_sign t) as [neg u] eqn:Eu.
  destruct u as [|c u]; [discriminate|].
  destruct (forallb re_digit (c :: u)) eqn:Ef; [|discriminate].
  intros _. apply Exists_exists. exists c. split.
  - apply strip_space_In. eapply drop_underscores_In; [exact Et|].
    eapply read_sign_In; [exact Eu | now left].
  - simpl in Ef. now apply andb_true_iff in Ef.
Qed.

Lemma key_token_run (r : str) :
  r <> [] -> Forall (fun c => re_digit c = true) r ->
  key_token r = Ok (TInt (digits_val r)).
Proof.
  intros Hne H. unfold key_token.
  assert (Hd : isdigit r = true).
  { destruct r as [|c r]; [congruence|]. unfold isdigit.
    apply forallb_forall. intros x Hx. apply digit_isdigit.
    revert x Hx. now apply Forall_forall. }
  rewrite Hd, (py_int_digits r Hne H). reflexivity.
Qed.

Lemma key_token_fragment (r : str) (t : token) :
  Forall (fun c => re_digit c = false) r ->
  key_token r = Ok t -> t = TStr (lower r).
Proof.
  intros H. unfold key_token. destruct (isdigit r).
  - destruct (py_int r) as [n|e] eqn:E; [|discriminate].
    apply py_int_needs_digit in E. apply Exists_exists in E.
    destruct E as (c & Hin & Hc).
    rewrite Forall_forall in H. specialize (H c Hin). congruence.
  - now intros [= <-].
Qed.

(** ** Natural sort key: the key and the normal form *)

Lemma runs_wf_runs (s : str) : runs_wf (runs s).
Proof.
  induction s as [|c s IH]; simpl; [exact I|].
  destruct (runs s) as [|[d r] rest] eqn:E.
  - simpl. split; [discriminate|]. split; [now constructor | auto].
  - simpl in IH. destruct IH as (Hne & Hall & Hnext & Hrest).
    destruct (Bool.eqb d (re_digit c)) eqn:Ed.
    + apply eqb_prop in Ed. simpl.
      split; [discriminate|]. split; [constructor; auto | auto].
    + apply eqb_false_iff in Ed. simpl.
      split; [discriminate|]. split; [now constructor|].
      split; [destruct d, (re_digit c); simpl; congruence | auto].
Qed.

Lemma re_split_digits_pieces (s : str) :
  re_split_digits s = pieces true (runs s).
Proof.
  induction s as [|c s IH]; [reflexivity|].
  pose proof (runs_wf_runs s) as Hwf.
  simpl. rewrite IH. destruct (runs s) as [|[d r] rest].
  - simpl. now destruct (re_digit c).
  - simpl in Hwf. destruct Hwf as (Hne & _).
    destruct d, (re_digit c); simpl; try reflexivity.
    destruct r; [congruence | reflexivity].
Qed.

(** The key computed from the pieces is the padded normal form, and it
    alternates between strings and numbers. *)
Lemma key_of_pieces (R : list (bool * str)) :
  forall (b : bool) (k : list token),
    runs_wf R -> starts_ok b R ->
    map_result key_token (pieces b R) = Ok k ->
    k = pad_key b (map read_run R) /\ key_shape b k = true.
Proof.
  induction R as [|[d r] R IH]; intros b k Hwf Hst.
  - destruct b; simpl; intros [= <-]; auto.
  - simpl in Hwf. destruct Hwf as (Hne & Hall & Hnext & Hwf).
    destruct d.
    + (* a digit run *)
      assert (Hrun : key_token r = Ok (TInt (digits_val r)))
        by now apply key_token_run.
      assert (Hrest : forall k',
                 map_result key_token (pieces true R) = Ok k' ->
                 k' = pad_key true (map read_run R) /\ key_shape true k' = true).
      { intros k'. apply IH; [exact Hwf|]. now destruct R as [|[d' r'] R']. }
      destruct b; simpl; rewrite Hrun; simpl;
        destruct (map_result key_token (pieces true R)) as [k'|e];
        simpl; try discriminate;
        intros [= <-]; destruct (Hrest k' eq_refl) as [-> Hs];
        simpl; now rewrite ?Hs.
    + (* a fragment *)
      simpl in Hst.
      assert (Hb : b = true) by (destruct b; [reflexivity|]; now specialize (Hst eq_refl)).
      subst b. simpl.
      destruct (key_token r) as [t|e] eqn:Et; simpl; [|discriminate].
      apply key_token_fragment in Et; [|exact Hall]. subst t.
      destruct (map_result key_token (pieces false R)) as [k'|e] eqn:Ek;
        simpl; [|discriminate].
      intros [= <-].
      assert (Hnx : starts_ok false R)
        by (destruct R as [|[d' r'] R']; simpl; [exact I | now intros _]).
      destruct (IH false k' Hwf Hnx Ek) as [-> Hs].
      simpl. now rewrite Hs.
Qed.

Lemma natural_key_normalize (s : str) (k : list token) :
  natural_key s = Ok k ->
  k = pad_key true (normalize s) /\ key_shape true k = true.
Proof.
  unfold natural_key, normalize. rewrite re_split_digits_pieces.
  apply key_of_pieces; [apply runs_wf_runs|].
  now destruct (runs s) as [|[d r] R].
Qed.

Lemma lower_nonempty (r : str) : r <> [] -> lower r <> [].
Proof. destruct r; [congruence | discriminate]. Qed.

Lemma normal_form_nonempty (R : list (bool * str)) :
  runs_wf R -> Forall (fun t => nonempty_token t = true) (map read_run R).
Proof.
  induction R as [|[d r] R IH]; simpl; [constructor|].
  intros (Hne & _ & _ & Hwf). constructor; [|now apply IH].
  unfold read_run. destruct d; simpl; [reflexivity|].
  destruct r; [congruence | reflexivity].
Qed.

(** Dropping the empty strings of a padded key gives the normal form back. *)
Lemma filter_pad_key (l : list token) (b : bool) :
  Forall (fun t => nonempty_token t = true) l ->
  filter nonempty_token (pad_key b l) = l.
Proof.
  intros H. revert b. induction H as [|t l Ht _ IH]; intros b.
  - now destruct b.
  - destruct t as [n|s]; simpl.
    + destruct b; simpl; now rewrite IH.
    + simpl in Ht. rewrite Ht. now rewrite IH.
Qed.

(** Two computed keys are equal exactly when the normal forms are. *)
Lemma natural_key_eq_normalize (a b : str) (ka kb : list token) :
  natural_key a = Ok ka -> natural_key b = Ok kb ->
  (ka = kb <-> normalize a = normalize b).
Proof.
  intros Ha Hb.
  apply natural_key_normalize in Ha, Hb.
  destruct Ha as [-> _], Hb as [-> _]. split.
  - intros H.
    rewrite <- (filter_pad_key (normalize a) true),
            <- (filter_pad_key (normalize b) true);
      try (apply normal_form_nonempty, runs_wf_runs).
    now rewrite H.
  - now intros ->.
Qed.

(** ** Natural sort key: the order on keys *)

Lemma str_ltb_irrefl (s : str) : str_ltb s s = false.
Proof.
  induction s as [|c s IH]; simpl; [reflexivity|].
  now rewrite N.ltb_irrefl, IH, andb_false_r.
Qed.

Lemma str_ltb_cons (c d : char) (s t : str) :
  str_ltb (c :: s) (d :: t) = true <->
  (ord c < ord d)%N \/ (c = d /\ str_ltb s t = true).
Proof.
  simpl. rewrite orb_true_iff, andb_true_iff, N.ltb_lt, N.eqb_eq. split.
  - intros [H|[H1 H2]]; [now left | right]. split; [now apply ord_inj | exact H2].
  - intros [H|[-> H]]; auto.
Qed.

Lemma str_ltb_trans (s t u : str) :
  str_ltb s t = true -> str_ltb t u = true -> str_ltb s u = true.
Proof.
  revert t u. induction s as [|c s IH]; intros [|d t] [|e u]; try easy.
  rewrite !str_ltb_cons.
  intros [H1|[-> H1]] [H2|[-> H2]]; [left; lia | now left | now left | right].
  split; [reflexivity | eapply IH; eassumption].
Qed.

Lemma str_ltb_total (s t : str) :
  str_ltb s t = false -> str_ltb t s = false -> s = t.
Proof.
  revert t. induction s as [|c s IH]; intros [|d t]; try easy.
  simpl. rewrite !orb_false_iff, !andb_false_iff, !N.ltb_ge, !N.eqb_neq.
  intros [H1 H2] [H3 H4].
  assert (E : ord c = ord d) by lia. apply ord_inj in E. subst d.
  f_equal. apply IH; [destruct H2 | destruct H4]; congruence.
Qed.

Lemma str_ltb_asym (s t : str) : str_ltb s t = true -> str_ltb t s = false.
Proof.
  intros H. destruct (str_ltb t s) eqn:E; [|reflexivity].
  pose proof (str_ltb_trans s t s H E) as C.
  rewrite str_ltb_irrefl in C. discriminate.
Qed.

Lemma token_eqb_eq (x y : token) : token_eqb x y = true <-> x = y.
Proof.
  destruct x as [m|s], y as [n|t]; simpl; try easy.
  - rewrite Z.eqb_eq. split; congruence.
  - rewrite str_eqb_eq. split; congruence.
Qed.

Lemma token_eqb_refl (x : token) : token_eqb x x = true.
Proof. now apply token_eqb_eq. Qed.

Lemma token_eqb_sym (x y : token) : token_eqb x y = token_eqb y x.
Proof.
  destruct (token_eqb x y) eqn:E.
  - apply token_eqb_eq in E. subst. symmetry. apply token_eqb_refl.
  - destruct (token_eqb y x) eqn:F; [|reflexivity].
    apply token_eqb_eq in F. subst. rewrite token_eqb_refl in E. discriminate.
Qed.

(** [v == w] on keys is equality of the keys. *)
Lemma key_eqb_eq (v w : list token) : key_eqb v w = true <-> v = w.
Proof.
  revert w. induction v as [|x v IH]; intros [|y w]; simpl; try easy.
  rewrite andb_true_iff, token_eqb_eq, IH. split.
  - now intros [-> ->].
  - now intros [= -> ->].
Qed.

Lemma token_lt_irrefl (x : token) : token_lt x x = Ok true -> False.
Proof.
  destruct x as [m|s]; simpl; intros [= H].
  - apply Z.ltb_lt in H. lia.
  - now rewrite str_ltb_irrefl in H.
Qed.

Lemma token_lt_trans (x y z : token) :
  token_lt x y = Ok true -> token_lt y z = Ok true -> token_lt x z = Ok true.
Proof.
  destruct x as [m|s], y as [n|t], z as [p|u]; simpl; try discriminate.
  - intros [= H1] [= H2]. f_equal. apply Z.ltb_lt in H1, H2.
    apply Z.ltb_lt. lia.
  - intros [= H1] [= H2]. f_equal. eapply str_ltb_trans; eassumption.
Qed.

Lemma token_lt_asym (x y : token) :
  token_lt x y = Ok true -> token_lt y x = Ok false.
Proof.
  destruct x as [m|s], y as [n|t]; simpl; try discriminate.
  - intros [= H]. f_equal. apply Z.ltb_lt in H. apply Z.ltb_ge. lia.
  - intros [= H]. f_equal. now apply str_ltb_asym.
Qed.

Lemma token_lt_total (x y : token) :
  token_lt x y = Ok false -> token_lt y x = Ok false -> x = y.
Proof.
  destruct x as [m|s], y as [n|t]; simpl; try discriminate.
  - intros [= H1] [= H2]. apply Z.ltb_ge in H1, H2. f_equal. lia.
  - intros [= H1] [= H2]. f_equal. now apply str_ltb_total.
Qed.

Lemma key_lt_irrefl (v : list token) : key_lt v v = Ok false.
Proof.
  induction v as [|x v IH]; simpl; [reflexivity|].
  now rewrite token_eqb_refl.
Qed.

Lemma key_lt_trans (u v w : list token) :
  key_lt u v = Ok true -> key_lt v w = Ok true -> key_lt u w = Ok true.
Proof.
  revert v w. induction u as [|x u IH]; intros [|y v] [|z w]; simpl; try easy.
  destruct (token_eqb x y) eqn:Exy, (token_eqb y z) eqn:Eyz.
  - apply token_eqb_eq in Exy, Eyz. subst. rewrite token_eqb_refl. apply IH.
  - apply token_eqb_eq in Exy. subst. rewrite Eyz. now intros _.
  - apply token_eqb_eq in Eyz. subst. rewrite Exy. now intros H _.
  - intros H1 H2. pose proof (token_lt_trans _ _ _ H1 H2) as H3.
    destruct (token_eqb x z) eqn:Exz; [|exact H3].
    apply token_eqb_eq in Exz. subst. now apply token_lt_irrefl in H3.
Qed.

Lemma key_lt_asym (v w : list token) :
  key_lt v w = Ok true -> key_lt w v = Ok false.
Proof.
  revert w. induction v as [|x v IH]; intros [|y w]; simpl; try easy.
  rewrite (token_eqb_sym y x). destruct (token_eqb x y); [apply IH|].
  apply token_lt_asym.
Qed.

Lemma key_lt_total (v w : list token) :
  key_lt v w = Ok false -> key_lt w v = Ok false -> v = w.
Proof.
  revert w. induction v as [|x v IH]; intros [|y w]; simpl; try easy.
  rewrite (token_eqb_sym y x). destruct (token_eqb x y) eqn:E.
  - apply token_eqb_eq in E. subst. intros H1 H2. f_equal. now apply IH.
  - intros H1 H2. pose proof (token_lt_total _ _ H1 H2) as ->.
    now rewrite token_eqb_refl in E.
Qed.

(** Keys of one shape never meet a number and a string at one position. *)
Lemma key_lt_defined (b : bool) (v w : list token) :
  key_shape b v = true -> key_shape b w = true ->
  exists r : bool, key_lt v w = Ok r.
Proof.
  revert b w. induction v as [|x v IH]; intros b [|y w]; simpl; eauto.
  destruct x as [m|s], y as [n|t], b; simpl; try discriminate; intros Hv Hw.
  - destruct (m =? n); eauto.
  - destruct (str_eqb s t); eauto.
Qed.

(** X1. On labels whose keys are computed, two keys are equal exactly when
    the labels have the same normal form, [==] on keys is that equality, [<]
    on keys never raises, and it is a strict total order: irreflexive,
    asymmetric, total and transitive. *)
Theorem natural_order_on_computed_keys
    (a b c : str) (ka kb kc : list token) :
  natural_key a = Ok ka -> natural_key b = Ok kb -> natural_key c = Ok kc ->
  (ka = kb <-> normalize a = normalize b)
  /\ (key_eqb ka kb = true <-> ka = kb)
  /\ (exists r : bool, key_lt ka kb = Ok r)
  /\ key_lt ka ka = Ok false
  /\ (key_lt ka kb = Ok true -> key_lt kb ka = Ok false)
  /\ (key_lt ka kb = Ok false -> key_lt kb ka = Ok false -> ka = kb)
  /\ (key_lt ka kb = Ok true -> key_lt kb kc = Ok true -> key_lt ka kc = Ok true).
Proof.
  intros Ha Hb Hc. split; [now apply natural_key_eq_normalize|].
  split; [apply key_eqb_eq|]. split.
  - apply natural_key_normalize in Ha, Hb.
    destruct Ha as [_ Ha], Hb as [_ Hb]. eapply key_lt_defined; eassumption.
  - split; [apply key_lt_irrefl|]. split; [apply key_lt_asym|].
    split; [apply key_lt_total | apply key_lt_trans].
Qed.

Lemma natural_order_on_computed_keys_witness :
  (natural_key "Plot 2" = natural_key "plot 02"
   /\ normalize "Plot 2" = normalize "plot 02")
  /\ key_lt [TStr "plot "; TInt 2; TStr ""] [TStr "plot "; TInt 10; TStr ""]
     = Ok true
  /\ key_lt [TStr "plot "; TInt 10; TStr ""] [TStr "plot "; TInt 2; TStr ""]
     = Ok false
  /\ key_lt [TStr "plot "; TInt 2; TStr ""] [TStr "plot "; TInt 10; TStr "a"]
     = Ok true.
Proof.
  pose proof (natural_order_on_computed_keys "Plot 2" "Plot 10" "Plot 10A"
                _ _ _ eq_refl eq_refl eq_refl) as (_ & _ & _ & _ & Hasym & _ & Htrans).
  pose proof (natural_order_on_computed_keys "Plot 2" "plot 02" "Plot 2"
                _ _ _ eq_refl eq_refl eq_refl) as (Heq & _).
  split; [|split; [|split]].
  - split; [reflexivity | now apply Heq].
  - reflexivity.
  - now apply Hasym.
  - now apply Htrans.
Defined.

(** ** Natural sort key: a label without a key *)

(** C7. Natural sort keys are meant to order all strings: two keys equal
    exactly when the strings have the same normal form, and any two keys
    comparable.  The code misses this for the label "²" (U+00B2) and for
    labels such as "12²": [re.split] leaves "²" as a non-digit fragment,
    [isdigit] accepts it, and [int] rejects it with a ValueError.  No key is
    computed, [natural_key(a) == natural_key(a)] raises instead of holding
    although the label has the normal form it shares with itself, the
    comparison with another label raises, and sorting a list of labels that
    contains it raises too. *)
Theorem natural_key_superscript_raises :
  re_split_digits [SUPERSCRIPT_TWO] = [[SUPERSCRIPT_TWO]]
  /\ isdigit [SUPERSCRIPT_TWO] = true
  /\ py_int [SUPERSCRIPT_TWO] = Raise ValueError
  /\ natural_key [SUPERSCRIPT_TWO] = Raise ValueError
  /\ natural_key twelve_squared = Raise ValueError
  /\ normalize twelve_squared = [TInt 12; TStr [SUPERSCRIPT_TWO]]
  /\ natural_eq twelve_squared twelve_squared = Raise ValueError
  /\ natural_lt "Plot 2" twelve_squared = Raise ValueError
  /\ sorted_natural [L1 "5"; twelve_squared] = Raise ValueError.
Proof.
  repeat split.
Qed.

(** With such a plot number in the selected lane the page stops at the plot
    selector, before anything is shown or recorded. *)
Example page_stops_on_superscript (ss : session) (w : remote) :
  selected_lane ss = L1 "1" ->
  page squared_plot ss w = (Raise ValueError, w).
Proof.
  intros Hl. unfold page, bindM, lift. rewrite Hl. reflexivity.
Qed.



(** ** The model of [re.split] *)

Lemma re_split_digits_cons (s : str) :
  exists f rest, re_split_digits s = f :: rest.
Proof.
  rewrite re_split_digits_pieces.
  destruct (runs s) as [|[[|] r] R]; simpl; eauto.
Qed.

Lemma re_split_digits_concat (s : str) : List.concat (re_split_digits s) = s.
Proof.
  induction s as [|c s IH]; [reflexivity|].
  simpl. destruct (re_split_digits_cons s) as (f & rest & E).
  rewrite E in *. destruct (re_digit c).
  - destruct f as [|x f]; [destruct rest as [|d rest]|];
      simpl in *; now rewrite IH.
  - simpl in *. now rewrite IH.
Qed.

Lemma re_split_digits_shape (s : str) :
  split_ok true (re_split_digits s)
  /\ match re_split_digits s with
     | f :: _ :: _ => f = [] \/ split_ok false (re_split_digits s)
     | _ => True
     end.
Proof.
  induction s as [|c s [IH1 IH2]]; [simpl; split; [constructor | exact I]|].
  simpl. destruct (re_split_digits s) as [|f rest]; [destruct IH1|].
  destruct (re_digit c) eqn:Ec.
  - assert (Hc : Forall (fun x => re_digit x = true) [c])
      by (constructor; [exact Ec | constructor]).
    destruct f as [|x f].
    + destruct rest as [|d rest].
      * split; [|left; reflexivity].
        simpl. repeat split; auto; try discriminate.
      * simpl in IH1. destruct IH1 as (Hf & _ & Hd & Hdd & Hrest).
        split; [|left; reflexivity].
        simpl. repeat split; auto; try discriminate.
    + split; [|left; reflexivity].
      assert (Hok : split_ok false ((x :: f) :: rest)).
      { destruct rest as [|d rest]; [exact IH1|].
        destruct IH2 as [H|H]; [discriminate H | exact H]. }
      simpl. repeat split; auto; try discriminate.
  - assert (Hsh : forall b, split_ok b ((c :: f) :: rest)).
    { intros b. destruct rest as [|d rest].
      - simpl in *. now constructor.
      - simpl in IH1. destruct IH1 as (Hf & _ & Hd & Hdd & Hrest).
        simpl. repeat split; auto; try discriminate.
        right. discriminate. }
    split; [apply Hsh|]. destruct rest; [exact I | right; apply Hsh].
Qed.

Lemma pair_induction {A : Type} (P : list A -> Prop) :
  P [] -> (forall x, P [x]) -> (forall x y l, P l -> P (x :: y :: l)) ->
  forall l, P l.
Proof.
  intros H0 H1 H2 l.
  enough (H : P l /\ forall x, P (x :: l)) by apply H.
  induction l as [|y l [IHa IHb]]; split; auto.
Qed.

(** A prefix of one class, followed by a text that starts in the other
    class, is determined by the whole. *)
Lemma class_prefix_unique (p : char -> bool) (a a' x x' : str) :
  Forall (fun c => p c = false) a -> Forall (fun c => p c = false) a' ->
  starts_with p x -> starts_with p x' ->
  a ++ x = a' ++ x' -> a = a' /\ x = x'.
Proof.
  intros Ha. revert a'. induction Ha as [|c a Hc Ha IH]; intros a' Ha' Hx Hx' E.
  - destruct Ha' as [|c' a' Hc' Ha']; [now split|].
    simpl in E. subst x. simpl in Hx. congruence.
  - destruct Ha' as [|c' a' Hc' Ha'].
    + simpl in E. subst x'. simpl in Hx'. congruence.
    + simpl in E. injection E as <- E.
      destruct (IH a' Ha' Hx Hx' E) as [-> ->]. now split.
Qed.

Lemma split_ok_concat_start (l : list str) :
  split_ok false l ->
  starts_with (fun c => negb (re_digit c)) (List.concat l).
Proof.
  destruct l as [|f [|d l]]; simpl; [easy| |].
  - intros Hf. rewrite app_nil_r. destruct Hf as [|c f Hc _]; simpl; [exact I|].
    now rewrite Hc.
  - intros (Hf & [H|Hne] & _); [discriminate H|].
    destruct Hf as [|c f Hc _]; [congruence|]. simpl. now rewrite Hc.
Qed.

Lemma split_ok_unique (l : list str) :
  forall (l' : list str) (b b' : bool),
    split_ok b l -> split_ok b' l' ->
    List.concat l = List.concat l' -> l = l'.
Proof.
  induction l as [|f|f d l IH] using pair_induction; intros l' b b' Hl Hl' E.
  - destruct Hl.
  - destruct l' as [|f' [|d' l']]; [destruct Hl'| |].
    + simpl in *. rewrite !app_nil_r in E. now subst.
    + simpl in Hl, Hl'. destruct Hl' as (Hf' & _ & Hd' & Hdd' & _).
      simpl in E.
      destruct (class_prefix_unique re_digit f f' [] (d' ++ List.concat l'))
        as [_ C]; auto.
      * exact I.
      * destruct Hdd' as [|c d' Hc _]; [congruence | exact Hc].
      * symmetry in C. apply app_eq_nil in C. destruct C. congruence.
  - simpl in Hl. destruct Hl as (Hf & _ & Hd & Hdd & Hrest).
    assert (Hstart : starts_with re_digit (d ++ List.concat l))
      by (destruct Hdd as [|c d Hc _]; [congruence | exact Hc]).
    destruct l' as [|f' [|d' l']]; [destruct Hl'| |].
    + simpl in Hl'. simpl in E.
      destruct (class_prefix_unique re_digit f f' (d ++ List.concat l) [])
        as [_ C]; auto.
      * exact I.
      * apply app_eq_nil in C. destruct C. congruence.
    + simpl in Hl'. destruct Hl' as (Hf' & _ & Hd' & Hdd' & Hrest').
      simpl in E.
      destruct (class_prefix_unique re_digit f f'
                  (d ++ List.concat l) (d' ++ List.concat l'))
        as [-> E2]; auto.
      { destruct Hdd' as [|c d' Hc _]; [congruence | exact Hc]. }
      destruct (class_prefix_unique (fun c => negb (re_digit c)) d d'
                  (List.concat l) (List.concat l'))
        as [-> E3]; auto.
      * eapply Forall_impl; [|exact Hdd]. intros c Hc. simpl. now rewrite Hc.
      * eapply Forall_impl; [|exact Hdd']. intros c Hc. simpl. now rewrite Hc.
      * now apply split_ok_concat_start.
      * now apply split_ok_concat_start.
      * f_equal. f_equal. eapply IH; eassumption.
Qed.

(** X4. The model of [re.split(r'(\d+)', s)] is the one list of pieces that
    joins back to [s] and in which fragments without digits alternate with
    non-empty runs of digits, starting and ending with a fragment, where only
    the first and the last fragment may be empty. *)
Theorem re_split_digits_characterised (s : str) (l : list str) :
  l = re_split_digits s <-> (List.concat l = s /\ split_ok true l).
Proof.
  split.
  - intros ->. split; [apply re_split_digits_concat | apply re_split_digits_shape].
  - intros [E H]. eapply split_ok_unique;
      [exact H | apply (re_split_digits_shape s) |].
    now rewrite re_split_digits_concat.
Qed.

Example re_split_digits_examples :
  re_split_digits "Plot 10A" = [L1 "Plot "; L1 "10"; L1 "A"]
  /\ re_split_digits "12" = [L1 ""; L1 "12"; L1 ""]
  /\ re_split_digits "a1b22" = [L1 "a"; L1 "1"; L1 "b"; L1 "22"; L1 ""]
  /\ re_split_digits "" = [L1 ""].
Proof. repeat split. Qed.

(** ** Sorting by the natural key *)

Lemma insert_by_key_spec {A : Type} (x : list token * A)
    (l r : list (list token * A)) :
  insert_by_key x l = Ok r ->
  Permutation (x :: l) r
  /\ (forall y, keyed_le y x -> HdRel keyed_le y l -> HdRel keyed_le y r)
  /\ (Sorted keyed_le l -> Sorted keyed_le r).
Proof.
  revert r. induction l as [|y l IH]; intros r; simpl.
  - intros [= <-]. repeat split; auto.
  - destruct (key_lt (fst y) (fst x)) as [[|]|e] eqn:E; simpl; try discriminate.
    + destruct (insert_by_key x l) as [r'|e] eqn:Er; simpl; [|discriminate].
      intros [= <-]. destruct (IH r' eq_refl) as (Hp & Hh & Hs).
      split; [|split].
      * rewrite perm_swap. now constructor.
      * intros z _ Hz. inversion Hz; subst. now constructor.
      * intros Hsorted. inversion Hsorted as [|? ? Hl Hhd]; subst.
        constructor; [now apply Hs|].
        apply Hh; [|exact Hhd]. unfold keyed_le. now apply key_lt_asym.
    + intros [= <-]. split; [reflexivity|]. split.
      * intros z Hz _. now constructor.
      * intros Hsorted. constructor; [exact Hsorted|]. now constructor.
Qed.

Lemma sort_by_key_spec {A : Type} (l r : list (list token * A)) :
  sort_by_key l = Ok r -> Permutation l r /\ Sorted keyed_le r.
Proof.
  revert r. induction l as [|x l IH]; intros r; simpl.
  - intros [= <-]. split; constructor.
  - destruct (sort_by_key l) as [r'|e]; simpl; [|discriminate].
    intros H. destruct (IH r' eq_refl) as [Hp Hs].
    apply insert_by_key_spec in H. destruct H as (Hp' & _ & Hs').
    split; [|now apply Hs']. now rewrite <- Hp', Hp.
Qed.

Lemma insert_by_key_defined {A : Type} (x : list token * A)
    (l : list (list token * A)) :
  key_shape true (fst x) = true ->
  Forall (fun y => key_shape true (fst y) = true) l ->
  exists r, insert_by_key x l = Ok r.
Proof.
  intros Hx Hl. induction Hl as [|y l Hy _ [r IH]]; simpl; [eauto|].
  destruct (key_lt_defined true (fst y) (fst x) Hy Hx) as [[|] ->]; simpl;
    [rewrite IH; simpl|]; eauto.
Qed.

Lemma sort_by_key_defined {A : Type} (l : list (list token * A)) :
  Forall (fun y => key_shape true (fst y) = true) l ->
  exists r, sort_by_key l = Ok r.
Proof.
  intros Hl. induction Hl as [|x l Hx Hl [r IH]]; simpl; [eauto|].
  rewrite IH. simpl. apply insert_by_key_defined; [exact Hx|].
  apply sort_by_key_spec in IH. destruct IH as [Hp _].
  eapply Permutation_Forall; eassumption.
Qed.

Lemma map_result_keys (l : list str) (keyed : list (list token * str)) :
  map_result (fun s => let* k := natural_key s in Ok (k, s)) l = Ok keyed ->
  map snd keyed = l
  /\ Forall (fun p => natural_key (snd p) = Ok (fst p)) keyed.
Proof.
  revert keyed. induction l as [|s l IH]; intros keyed; simpl.
  - intros [= <-]. split; constructor.
  - destruct (natural_key s) as [k|e] eqn:Ek; simpl; [|discriminate].
    destruct (map_result _ l) as [keyed'|e]; simpl; [|discriminate].
    intros [= <-]. destruct (IH keyed' eq_refl) as [<- Hall].
    split; [reflexivity|]. now constructor.
Qed.

Lemma map_result_keys_defined (l : list str) :
  Forall (fun s => exists k, natural_key s = Ok k) l ->
  exists keyed,
    map_result (fun s => let* k := natural_key s in Ok (k, s)) l = Ok keyed.
Proof.
  intros H. induction H as [|s l [k Hk] _ [keyed IH]]; simpl; [eauto|].
  rewrite Hk. simpl. rewrite IH. simpl. eauto.
Qed.

Lemma sorted_by_natural_key (r : list (list token * str)) :
  Forall (fun p => natural_key (snd p) = Ok (fst p)) r ->
  Sorted keyed_le r -> Sorted natural_le (map snd r).
Proof.
  intros Hall Hs. induction Hs as [|p r Hs IH Hhd]; simpl; [constructor|].
  inversion Hall as [|? ? Hp Hr]; subst.
  constructor; [now apply IH|].
  destruct Hhd as [|q r Hq]; simpl; constructor.
  inversion Hr as [|? ? Hq' _]; subst.
  unfold natural_le, natural_lt. rewrite Hq', Hp. exact Hq.
Qed.

(** X5. [sorted(l, key=natural_key)] returns, when it returns, a rearrangement
    of [l] in which no label sorts before its left neighbour; and it returns
    whenever every label of [l] has a key. *)
Theorem sorted_natural_sorts (l : list str) :
  (forall r, sorted_natural l = Ok r ->
             Permutation l r /\ Sorted natural_le r)
  /\ (Forall (fun s => exists k, natural_key s = Ok k) l ->
      exists r, sorted_natural l = Ok r).
Proof.
  unfold sorted_natural. split.
  - intros r.
    destruct (map_result _ l) as [keyed|e] eqn:Ek; simpl; [|discriminate].
    destruct (sort_by_key keyed) as [r'|e] eqn:Es; simpl; [|discriminate].
    intros [= <-]. apply map_result_keys in Ek. destruct Ek as [<- Hall].
    apply sort_by_key_spec in Es. destruct Es as [Hp Hs]. split.
    + now apply Permutation_map.
    + apply sorted_by_natural_key; [|exact Hs].
      eapply Permutation_Forall; eassumption.
  - intros H. destruct (map_result_keys_defined l H) as [keyed Ek].
    rewrite Ek. simpl.
    destruct (sort_by_key_defined keyed) as [r' Es].
    + apply map_result_keys in Ek. destruct Ek as [_ Hall].
      eapply Forall_impl; [|exact Hall].
      intros p Hp. now apply natural_key_normalize in Hp.
    + rewrite Es. simpl. eauto.
Qed.

Lemma sorted_natural_sorts_witness :
  sorted_natural [L1 "Plot 10"; L1 "plot 2"; L1 "Plot 1"]
  = Ok [L1 "Plot 1"; L1 "plot 2"; L1 "Plot 10"]
  /\ Permutation [L1 "Plot 10"; L1 "plot 2"; L1 "Plot 1"]
                 [L1 "Plot 1"; L1 "plot 2"; L1 "Plot 10"]
  /\ Sorted natural_le [L1 "Plot 1"; L1 "plot 2"; L1 "Plot 10"].
Proof.
  split; [reflexivity|].
  exact (proj1 (sorted_natural_sorts [L1 "Plot 10"; L1 "plot 2"; L1 "Plot 1"])
           _ eq_refl).
Defined.

(** ** The period widgets *)

Lemma pick_In {A : Type} (options : list A) (ix : nat) (x : A) :
  pick options ix = Some x -> In x options.
Proof. apply nth_error_In. Qed.

Lemma period_widgets_reachable (c : clicks) (sel : selection) :
  period_widgets c = Some sel -> In sel reachable_selections.
Proof.
  unfold period_widgets.
  destruct (pick PERIOD_OPTIONS (radio_ix c)) as [p|] eqn:Hp; [|discriminate].
  destruct (pick years (year_ix c)) as [y|] eqn:Hy; [|discriminate].
  apply pick_In in Hp, Hy. intros H.
  apply in_flat_map. exists y. split; [exact Hy|].
  destruct Hp as [<-|[<-|[<-|[]]]].
  - injection H as <-. now left.
  - change (str_eqb "Quarter" "Quarter") with true in H. cbv iota in H.
    destruct (pick QTR_OPTIONS (t2_ix c)) as [q|] eqn:Hq; [|discriminate].
    injection H as <-. right. apply in_or_app. left.
    apply pick_In in Hq. now apply (in_map (quarter_selection y)).
  - change (str_eqb "Month" "Quarter") with false in H.
    change (str_eqb "Month" "Month") with true in H. cbv iota in H.
    destruct (pick MONTH_OPTIONS (t2_ix c)) as [m|] eqn:Hm; [|discriminate].
    injection H as <-. right. apply in_or_app. right.
    apply pick_In in Hm. now apply (in_map (month_selection y)).
Qed.

Lemma reachable_selection_cases (sel : selection) :
  In sel reachable_selections ->
  exists y, In y years
    /\ (sel = year_selection y
        \/ (exists q, In q QTR_OPTIONS /\ sel = quarter_selection y q)
        \/ (exists m, In m MONTH_OPTIONS /\ sel = month_selection y m)).
Proof.
  intros H. apply in_flat_map in H. destruct H as (y & Hy & H).
  exists y. split; [exact Hy|].
  destruct H as [<-|H]; [now left|]. apply in_app_or in H.
  destruct H as [H|H]; apply in_map_iff in H; destruct H as (x & <- & Hx);
    eauto.
Qed.

Lemma opt_str_eqb_eq (x y : option str) : opt_str_eqb x y = true <-> x = y.
Proof.
  destruct x as [s|], y as [t|]; simpl; try easy.
  rewrite str_eqb_eq. split; congruence.
Qed.

Lemma selection_eqb_eq (a b : selection) : selection_eqb a b = true <-> a = b.
Proof.
  unfold selection_eqb.
  rewrite !andb_true_iff, !str_eqb_eq, !opt_str_eqb_eq.
  destruct a, b; simpl. split.
  - intros [[[-> ->] ->] ->]. reflexivity.
  - intros [= -> -> -> ->]. auto.
Qed.

(** What [get_target_months] returns for a selection of the widgets. *)
Lemma reachable_months (sel : selection) :
  In sel reachable_selections ->
  exists months : list str,
    get_target_months (period_type sel) (selected_year sel)
                      (selected_qtr sel) (selected_month sel)
      = Some (map Some months)
    /\ Z.of_nat (List.length months) = months_in (period_type sel)
    /\ NoDup months
    /\ incl months MONTH_OPTIONS.
Proof.
  intros H. apply reachable_selection_cases in H.
  destruct H as (y & _ & [->|[(q & Hq & ->)|(m & Hm & ->)]]).
  - exists MONTH_OPTIONS. repeat split.
    + repeat (constructor; [simpl; intuition discriminate|]). constructor.
    + apply incl_refl.
  - simpl in Hq. destruct Hq as [<-|[<-|[<-|[<-|[]]]]].
    + exists (firstn 3 MONTH_OPTIONS). repeat split.
      * repeat (constructor; [simpl; intuition discriminate|]). constructor.
      * intros x Hx. simpl in *. tauto.
    + exists (firstn 3 (skipn 3 MONTH_OPTIONS)). repeat split.
      * repeat (constructor; [simpl; intuition discriminate|]). constructor.
      * intros x Hx. simpl in *. tauto.
    + exists (firstn 3 (skipn 6 MONTH_OPTIONS)). repeat split.
      * repeat (constructor; [simpl; intuition discriminate|]). constructor.
      * intros x Hx. simpl in *. tauto.
    + exists (firstn 3 (skipn 9 MONTH_OPTIONS)). repeat split.
      * repeat (constructor; [simpl; intuition discriminate|]). constructor.
      * intros x Hx. simpl in *. tauto.
  - exists [m]. repeat split.
    + constructor; [simpl; tauto | constructor].
    + intros x [<-|[]]. exact Hm.
Qed.

Lemma split_amount_nonempty (A : Z) (L : list (option str)) :
  L <> [] ->
  split_amount A (Some L)
  = Ok (VFloat (Fin (Qred (inject_Z A / inject_Z (Z.of_nat (List.length L)))))).
Proof.
  intros HL. unfold split_amount, py_len, bind, py_truediv.
  assert (0 < Z.of_nat (List.length L)) by (destruct L; [easy | simpl; lia]).
  destruct (Z.ltb_spec 0 (Z.of_nat (List.length L))); [|lia].
  destruct (Z.eqb_spec (Z.of_nat (List.length L)) 0); [lia | reflexivity].
Qed.

Lemma submit_valid (t p n : str) (sel : selection) (form : proof_form) :
  paid_confirm form = true ->
  txn_id form <> [] \/ uploaded_file form <> None ->
  submit t p n sel form = record_payment t p n sel form.
Proof.
  intros Hc Hproof. unfold submit. rewrite Hc. simpl negb. cbv iota.
  assert (Hv : negb (truthy (txn_id form))
               && negb (is_some (uploaded_file form)) = false).
  { destruct Hproof as [H|H].
    - destruct (txn_id form); [congruence | reflexivity].
    - destruct (uploaded_file form); [|congruence].
      simpl. apply andb_false_r. }
  now rewrite Hv.
Qed.

Lemma inject_Z_nonzero (z : Z) : z <> 0 -> ~ inject_Z z == 0.
Proof.
  intros Hz H. unfold Qeq, inject_Z in H. simpl in H. lia.
Qed.





Lemma auto_amount_months (fee : Z) (period_type : str) :
  auto_amount fee period_type = fee * months_in period_type.
Proof.
  unfold auto_amount, months_in.
  destruct (str_eqb period_type "Year"); [reflexivity|].
  destruct (str_eqb period_type "Quarter"); reflexivity.
Qed.

Lemma share_of_multiple (fee k : Z) :
  0 < k -> Qred (inject_Z (fee * k) / inject_Z k) = inject_Z fee.
Proof.
  intros Hk.
  rewrite (Qred_complete _ (inject_Z fee)).
  - apply Qred_identity. simpl. apply Z.gcd_1_r.
  - rewrite inject_Z_mult. field. apply inject_Z_nonzero. lia.
Qed.

(** X7. The total the page suggests is the fee times the number of rows the
    submission will write, and a submission that pays exactly the suggested
    total records the monthly fee itself in every appended row. *)
Theorem suggested_total_records_fee (fee : Z) (c : clicks) (sel : selection)
    (current_time plot_no resident_name : str) (form : proof_form)
    (w : remote) :
  period_widgets c = Some sel ->
  paid_confirm form = true ->
  txn_id form <> [] \/ uploaded_file form <> None ->
  reachable w = true ->
  amount_paid_user form = auto_amount fee (period_type sel) ->
  exists (rows : list row) (w' : remote),
    submit current_time plot_no resident_name sel form w
      = (Ok (StSuccess "Saved!"), w')
    /\ appended w w' rows
    /\ auto_amount fee (period_type sel) = fee * Z.of_nat (List.length rows)
    /\ Forall (fun r => cell col_Amount r = Some (VFloat (Fin (inject_Z fee))))
              rows.
Proof.
  intros Hsel Hc Hproof Hr Ha.
  apply period_widgets_reachable, reachable_months in Hsel.
  destruct Hsel as (months & Hm & Hlen & _ & _).
  assert (Hpos : 0 < months_in (period_type sel)).
  { unfold months_in. repeat destruct (str_eqb _ _); lia. }
  assert (Hne : map Some months <> [])
    by (destruct months; [simpl in Hlen; lia | discriminate]).
  pose proof (split_amount_nonempty (amount_paid_user form) _ Hne) as Hs.
  rewrite length_map, Hlen, Ha, auto_amount_months in Hs.
  rewrite (share_of_multiple fee _ Hpos) in Hs.
  rewrite <- auto_amount_months, <- Ha in Hs.
  pose proof (record_payment_saved current_time plot_no resident_name sel form
                _ _ w Hm Hs Hr) as Hrun.
  rewrite <- (submit_valid _ _ _ _ _ Hc Hproof) in Hrun.
  eexists. eexists. split; [exact Hrun|]. split; [reflexivity|]. split.
  - rewrite !length_map, Hlen. apply auto_amount_months.
  - apply Forall_forall. intros r Hin. apply in_map_iff in Hin.
    destruct Hin as (m & <- & _). reflexivity.
Qed.

Lemma suggested_total_records_fee_witness :
  exists (rows : list row) (w' : remote),
    submit "2024-05-01 10:00:00" "A5" "Asha"
      (quarter_selection "2024" "Q2") paid_900 empty_sheet
      = (Ok (StSuccess "Saved!"), w')
    /\ appended empty_sheet w' rows
    /\ auto_amount MONTHLY_FEE (period_type (quarter_selection "2024" "Q2"))
       = MONTHLY_FEE * Z.of_nat (List.length rows)
    /\ Forall (fun r => cell col_Amount r
                        = Some (VFloat (Fin (inject_Z MONTHLY_FEE)))) rows.
Proof.
  apply (suggested_total_records_fee MONTHLY_FEE
           {| radio_ix := 1; year_ix := 2; t2_ix := 1 |}
           (quarter_selection "2024" "Q2")
           "2024-05-01 10:00:00" "A5" "Asha" paid_900 empty_sheet);
    try reflexivity.
  left. discriminate.
Defined.

(** ** The payment note *)

Lemma note_suffix_injective_on_reachable :
  forallb (fun a =>
    forallb (fun b =>
      negb (str_eqb (note_suffix a) (note_suffix b)) || selection_eqb a b)
      reachable_selections) reachable_selections = true.
Proof. vm_compute. reflexivity. Qed.

Lemma note_suffix_injective (a b : selection) :
  In a reachable_selections -> In b reachable_selections ->
  note_suffix a = note_suffix b -> a = b.
Proof.
  intros Ha Hb E. pose proof note_suffix_injective_on_reachable as H.
  rewrite forallb_forall in H. specialize (H a Ha).
  rewrite forallb_forall in H. specialize (H b Hb).
  rewrite E, str_eqb_refl in H. simpl in H. now apply selection_eqb_eq.
Qed.

(** X8. For plot numbers without an underscore, the payment note tells the
    plot and the period apart: two notes built from selections of the period
    widgets are equal only for the same plot and the same selection. *)
Theorem upi_note_identifies (p1 p2 : str) (c1 c2 : clicks)
    (sel1 sel2 : selection) :
  period_widgets c1 = Some sel1 -> period_widgets c2 = Some sel2 ->
  Forall (fun ch => is_char "_" ch = false) p1 ->
  Forall (fun ch => is_char "_" ch = false) p2 ->
  upi_note p1 sel1 = upi_note p2 sel2 ->
  p1 = p2 /\ sel1 = sel2.
Proof.
  intros H1 H2 Hp1 Hp2 E. unfold upi_note in E.
  destruct (class_prefix_unique (is_char "_") p1 p2
              (L1 "_" ++ note_suffix sel1) (L1 "_" ++ note_suffix sel2))
    as [-> E2]; auto; try reflexivity.
  split; [reflexivity|]. injection E2 as E2.
  apply note_suffix_injective; auto; eapply period_widgets_reachable; eassumption.
Qed.

Lemma upi_note_identifies_witness :
  L1 "A5" = L1 "A5"
  /\ quarter_selection "2024" "Q2" = quarter_selection "2024" "Q2".
Proof.
  apply (upi_note_identifies "A5" "A5"
           {| radio_ix := 1; year_ix := 2; t2_ix := 1 |}
           {| radio_ix := 1; year_ix := 2; t2_ix := 1 |});
    try reflexivity; repeat constructor.
Defined.

(** With an underscore in the plot number the note is ambiguous: plot
    "5_Q1" for the year 2024 and plot "5" for Q1 of 2024 get one note. *)
Example upi_note_collision :
  upi_note "5_Q1" (year_selection "2024")
  = upi_note "5" (quarter_selection "2024" "Q1")
  /\ upi_url MONTHLY_FEE "A5" (quarter_selection "2024" "Q2")
     = L1 "upi://pay?pa=treasurer@upi&pn=RPE Association&am=900&tn=A5_Q2_2024".
Proof. split; reflexivity. Qed.

(** ** The form handler over a gateway that can fail *)

Lemma append_all_reliable (rows : list row) (w : remote) :
  append_all rows w = for_each append_row rows w.
Proof.
  revert w. induction rows as [|r rows IH]; intros w; [reflexivity|].
  simpl. unfold then_, bindM. simpl. apply IH.
Qed.

(** On the sheet of the first model the handler over a gateway is the
    handler itself. *)
Lemma submit_on_reliable (t p n : str) (sel : selection) (form : proof_form)
    (w : remote) :
  submit_on t p n sel form w = submit t p n sel form w.
Proof.
  unfold submit_on, submit.
  destruct (negb (paid_confirm form)); [reflexivity|].
  destruct (negb (truthy (txn_id form)) && negb (is_some (uploaded_file form)));
    [reflexivity|].
  unfold record_payment_on, record_payment, try_except, then_, bindM, lift.
  destruct (split_amount _ _) as [v|e]; [|reflexivity].
  simpl. destruct (get_google_sheet w) as [[[]|e] w1]; [|reflexivity].
  rewrite append_all_reliable.
  destruct (for_each append_row _ w1) as [[[]|e] w2]; reflexivity.
Qed.

Lemma append_all_flaky (rows : list row) (w : flaky) :
  append_all rows w
  = if (List.length rows <=? calls_left w)%nat
    then (Ok tt, {| sheet_rows := sheet_rows w ++ rows;
                    calls_left := calls_left w - List.length rows |})
    else (Raise GatewayError,
          {| sheet_rows := sheet_rows w ++ firstn (calls_left w) rows;
             calls_left := 0 |}).
Proof.
  revert w. induction rows as [|r rows IH]; intros [l n].
  - simpl. now rewrite app_nil_r, Nat.sub_0_r.
  - simpl append_all. unfold then_. simpl append. unfold flaky_append.
    cbn [calls_left sheet_rows]. destruct n as [|n].
    + simpl. now rewrite app_nil_r.
    + rewrite IH. cbn [calls_left sheet_rows List.length].
      change (S (List.length rows) <=? S n)%nat
        with (List.length rows <=? n)%nat.
      destruct (List.length rows <=? n)%nat; simpl;
        now rewrite <- app_assoc.
Qed.

Section FlakyRuns.

Variables (current_time plot_no resident_name : str).
Variable sel : selection.
Variable form : proof_form.
Variable months : list (option str).

Hypothesis confirmed : paid_confirm form = true.
Hypothesis proof_given : txn_id form <> [] \/ uploaded_file form <> None.
Hypothesis months_found :
  get_target_months (period_type sel) (selected_year sel)
                    (selected_qtr sel) (selected_month sel) = Some months.

(** The rows the submission is to write. *)
Let planned (split : value) : list row :=
  map (ledger_row current_time plot_no resident_name sel split
         (if truthy (txn_id form) then txn_id form else "Screenshot")
         (if is_some (uploaded_file form) then "Uploaded" else "None"))
      months.

Lemma submit_on_flaky (w : flaky) :
  exists split : value,
    split_amount (amount_paid_user form) (Some months) = Ok split
    /\ submit_on current_time plot_no resident_name sel form w
       = (Ok (if (List.length months <? calls_left w)%nat
              then StSuccess "Saved!" else StErrorExn GatewayError),
          {| sheet_rows :=
               sheet_rows w ++ firstn (calls_left w - 1) (planned split);
             calls_left := calls_left w - S (List.length months) |}).
Proof.
  destruct (split_amount_defined (amount_paid_user form) months) as [v Hv].
  exists v. split; [exact Hv|].
  assert (Hp : negb (truthy (txn_id form))
               && negb (is_some (uploaded_file form)) = false).
  { destruct proof_given as [H|H].
    - destruct (txn_id form); [congruence | reflexivity].
    - destruct (uploaded_file form); [|congruence].
      simpl. apply andb_false_r. }
  unfold submit_on. rewrite confirmed, Hp. cbn [negb].
  unfold record_payment_on, then_ at 1 2.
  rewrite months_found, Hv. cbn [open_sheet flaky_gateway]. unfold flaky_open.
  destruct w as [l [|k]]; cbn [calls_left sheet_rows].
  - simpl. now rewrite app_nil_r.
  - unfold then_. rewrite append_all_flaky. cbn [calls_left sheet_rows].
    fold (planned v).
    assert (Hlen : List.length (planned v) = List.length months)
      by (unfold planned; apply length_map).
    rewrite Hlen.
    change (List.length months <? S k)%nat with (List.length months <=? k)%nat.
    replace (S k - 1)%nat with k by lia.
    change (S k - S (List.length months))%nat
      with (k - List.length months)%nat.
    destruct (Nat.leb_spec (List.length months) k) as [Hle|Hgt].
    + rewrite firstn_all2 by (rewrite Hlen; exact Hle). reflexivity.
    + replace (k - List.length months)%nat with 0%nat by lia. reflexivity.
Qed.

(** X9. When the sheet starts to fail in the middle of a submission, no
    exception leaves the handler and nothing is rolled back: the sheet keeps
    the rows written so far, a prefix of the rows of the submission, and
    "Saved!" is shown exactly when all of them were written. *)
Theorem failing_gateway_leaves_prefix (w : flaky) :
  exists (split : value) (fb : feedback) (w' : flaky) (written : nat),
    split_amount (amount_paid_user form) (Some months) = Ok split
    /\ submit_on current_time plot_no resident_name sel form w = (Ok fb, w')
    /\ sheet_rows w' = sheet_rows w ++ firstn written (planned split)
    /\ (written <= List.length months)%nat
    /\ ((fb = StSuccess "Saved!" /\ written = List.length months
         /\ (List.length months < calls_left w)%nat)
        \/ (fb = StErrorExn GatewayError /\ written = (calls_left w - 1)%nat
            /\ (calls_left w <= List.length months)%nat)).
Proof.
  destruct (submit_on_flaky w) as (v & Hv & Hrun).
  exists v. destruct (Nat.ltb_spec (List.length months) (calls_left w)) as [Hlt|Hge].
  - exists (StSuccess "Saved!"). eexists. exists (List.length months).
    split; [exact Hv|]. split; [exact Hrun|]. cbn [sheet_rows].
    split; [|split; [lia | left; auto]].
    rewrite !firstn_all2; try reflexivity; unfold planned; rewrite length_map; lia.
  - exists (StErrorExn GatewayError). eexists. exists (calls_left w - 1)%nat.
    split; [exact Hv|]. split; [exact Hrun|]. cbn [sheet_rows].
    split; [reflexivity|]. split; [lia | right; auto].
Qed.

(** X10. The handler never looks at what the sheet holds: a submission
    repeated after a run that wrote [written] rows, on a sheet that answers
    again, writes all its rows once more, so the rows of the first run are on
    the sheet twice. *)
Theorem resubmission_duplicates (w w1 w2 : flaky) (fb : feedback) :
  submit_on current_time plot_no resident_name sel form w = (Ok fb, w1) ->
  sheet_rows w2 = sheet_rows w1 ->
  (List.length months < calls_left w2)%nat ->
  exists (split : value) (w3 : flaky) (written : nat),
    split_amount (amount_paid_user form) (Some months) = Ok split
    /\ submit_on current_time plot_no resident_name sel form w2
       = (Ok (StSuccess "Saved!"), w3)
    /\ sheet_rows w3
       = sheet_rows w ++ firstn written (planned split) ++ planned split
    /\ (fb = StSuccess "Saved!" -> written = List.length months).
Proof.
  intros H1 Hsame Hcalls.
  destruct (submit_on_flaky w) as (v & Hv & Hrun1).
  destruct (submit_on_flaky w2) as (v2 & Hv2 & Hrun2).
  rewrite Hv in Hv2. injection Hv2 as <-.
  rewrite Hrun1 in H1. injection H1 as Hfb <-.
  exists v. eexists.
  exists (Nat.min (calls_left w - 1) (List.length months)).
  split; [exact Hv|]. split.
  - rewrite Hrun2. apply Nat.ltb_lt in Hcalls. rewrite Hcalls. reflexivity.
  - cbn [sheet_rows]. rewrite Hsame. cbn [sheet_rows]. split.
    + rewrite <- app_assoc. f_equal. f_equal.
      * rewrite <- (firstn_firstn (planned v)).
        f_equal. rewrite firstn_all2; [reflexivity|].
        unfold planned. rewrite length_map. lia.
      * apply firstn_all2. unfold planned. rewrite length_map. lia.
    + intros ->. destruct (Nat.ltb_spec (List.length months) (calls_left w));
        [lia | discriminate Hfb].
Qed.

End FlakyRuns.

Lemma failing_gateway_leaves_prefix_witness :
  exists (split : value) (fb : feedback) (w' : flaky) (written : nat),
    split_amount (amount_paid_user paid_900) (Some q2_months) = Ok split
    /\ submit_on "2024-05-01 10:00:00" "A5" "Asha" q2_2024 paid_900 three_calls
       = (Ok fb, w')
    /\ sheet_rows w' = sheet_rows three_calls ++ firstn written (q2_rows split)
    /\ (written <= List.length q2_months)%nat
    /\ ((fb = StSuccess "Saved!" /\ written = List.length q2_months
         /\ (List.length q2_months < calls_left three_calls)%nat)
        \/ (fb = StErrorExn GatewayError
            /\ written = (calls_left three_calls - 1)%nat
            /\ (calls_left three_calls <= List.length q2_months)%nat)).
Proof.
  apply (failing_gateway_leaves_prefix "2024-05-01 10:00:00" "A5" "Asha"
           q2_2024 paid_900 q2_months);
    [reflexivity | left; discriminate | reflexivity].
Defined.

(** With three calls answered, the sheet is opened and two of the three
    rows are written before the error is shown. *)
Example two_of_three_rows :
  exists w',
    submit_on "2024-05-01 10:00:00" "A5" "Asha" q2_2024 paid_900 three_calls
      = (Ok (StErrorExn GatewayError), w')
    /\ map (cell col_Period) (sheet_rows w')
       = [Some (VStr "Apr 2024"); Some (VStr "May 2024")].
Proof. eexists. split; [cbv; reflexivity | reflexivity]. Qed.

Lemma resubmission_duplicates_witness :
  exists (split : value) (w3 : flaky) (written : nat),
    split_amount (amount_paid_user paid_900) (Some q2_months) = Ok split
    /\ submit_on "2024-05-01 10:00:00" "A5" "Asha" q2_2024 paid_900
         {| sheet_rows := firstn 2 (q2_rows (VFloat (Fin 300)));
            calls_left := 4 |}
       = (Ok (StSuccess "Saved!"), w3)
    /\ sheet_rows w3
       = sheet_rows three_calls ++ firstn written (q2_rows split)
         ++ q2_rows split
    /\ (StErrorExn GatewayError = StSuccess "Saved!" ->
        written = List.length q2_months).
Proof.
  apply (resubmission_duplicates "2024-05-01 10:00:00" "A5" "Asha"
           q2_2024 paid_900 q2_months eq_refl
           (or_introl (fun H : txn_id paid_900 = [] =>
                         eq_ind (txn_id paid_900)
                           (fun s => match s with [] => False | _ => True end)
                           I [] H))
           eq_refl three_calls
           {| sheet_rows := firstn 2 (q2_rows (VFloat (Fin 300)));
              calls_left := 0 |});
    [cbv; reflexivity | reflexivity | cbv; lia].
Defined.

(** ** The lane and plot selectors *)

Lemma unique_In (l : list str) (x : str) : In x (unique l) <-> In x l.
Proof.
  induction l as [|y l IH]; simpl; [tauto|].
  rewrite filter_In, IH. split.
  - intros [H|[H _]]; auto.
  - intros [H|H]; [now left|].
    destruct (str_eqb y x) eqn:E.
    + apply str_eqb_eq in E. now left.
    + right. now split.
Qed.

Lemma unique_NoDup (l : list str) : NoDup (unique l).
Proof.
  induction l as [|y l IH]; simpl; constructor.
  - rewrite filter_In. intros [_ H]. now rewrite str_eqb_refl in H.
  - now apply NoDup_filter.
Qed.

Lemma sorted_natural_perm (l r : list str) :
  sorted_natural l = Ok r -> Permutation l r.
Proof.
  unfold sorted_natural.
  destruct (map_result _ l) as [keyed|e] eqn:Ek; simpl; [|discriminate].
  destruct (sort_by_key keyed) as [r'|e] eqn:Es; simpl; [|discriminate].
  intros [= <-]. apply map_result_keys in Ek. destruct Ek as [<- _].
  apply sort_by_key_spec in Es. now apply Permutation_map.
Qed.

Lemma Permutation_In_iff {A : Type} (l r : list A) (x : A) :
  Permutation l r -> (In x r <-> In x l).
Proof.
  intros H. split; apply Permutation_in; [now apply Permutation_sym | exact H].
Qed.

Lemma NoDup_map_same {A B : Type} (f : A -> B) (l : list A) (a b : A) :
  NoDup (map f l) -> In a l -> In b l -> f a = f b -> a = b.
Proof.
  induction l as [|x l IH]; simpl; [easy|].
  intros Hnd Ha Hb E. inversion Hnd as [|? ? Hx Hl]; subst.
  destruct Ha as [->|Ha], Hb as [->|Hb]; auto.
  - exfalso. apply Hx. rewrite E. now apply in_map.
  - exfalso. apply Hx. rewrite <- E. now apply in_map.
Qed.

Lemma resident_data_missing (df : roster) (plot_no : str) :
  resident_data df plot_no = Raise IndexError <->
  ~ In plot_no (map Plot_No (residents df)).
Proof.
  unfold resident_data. induction (residents df) as [|x l IH]; simpl.
  - tauto.
  - destruct (str_eqb (Plot_No x) plot_no) eqn:E.
    + apply str_eqb_eq in E. split; [discriminate | tauto].
    + apply str_eqb_neq in E. rewrite IH. tauto.
Qed.

(** X11. The plot selector offers exactly the plot numbers of the selected
    lane, each once, and every offered plot is found by the lookup; when no
    plot number occurs twice in the roster, the resident found lives in the
    selected lane. *)
Theorem offered_plots_are_found (df : roster) (lane : str) (plots : list str) :
  filtered_plots df lane = Ok plots ->
  NoDup plots
  /\ (forall plot,
        In plot plots <->
        exists r, In r (residents df) /\ Lane_No r = lane /\ Plot_No r = plot)
  /\ (forall plot,
        In plot plots ->
        exists r, resident_data df plot = Ok r
                  /\ In r (residents df) /\ Plot_No r = plot
                  /\ (NoDup (map Plot_No (residents df)) -> Lane_No r = lane)).
Proof.
  unfold filtered_plots. intros H. apply sorted_natural_perm in H.
  assert (Hin : forall plot,
             In plot plots <->
             exists r, In r (residents df) /\ Lane_No r = lane
                       /\ Plot_No r = plot).
  { intros plot. rewrite (Permutation_In_iff _ _ plot H), unique_In, in_map_iff.
    split.
    - intros (r & <- & Hr). apply filter_In in Hr. destruct Hr as [Hr E].
      apply str_eqb_eq in E. eauto.
    - intros (r & Hr & E & <-). exists r. split; [reflexivity|].
      apply filter_In. split; [exact Hr|]. now apply str_eqb_eq. }
  split; [|split; [exact Hin|]].
  - eapply Permutation_NoDup; [exact H | apply unique_NoDup].
  - intros plot Hp. apply Hin in Hp. destruct Hp as (r' & Hr' & Hlane & Hplot).
    destruct (resident_data df plot) as [r|e] eqn:E.
    + exists r. split; [reflexivity|].
      apply resident_data_first in E.
      destruct E as (pre & post & Hres & Hpr & _).
      assert (Hr : In r (residents df))
        by (rewrite Hres; apply in_or_app; right; now left).
      repeat split; auto. intros Hnd.
      rewrite (NoDup_map_same Plot_No (residents df) r r' Hnd Hr Hr');
        congruence.
    + exfalso. assert (e = IndexError) as ->.
      { revert E. unfold resident_data.
        destruct (filter (fun r => str_eqb (Plot_No r) plot) (residents df));
          intros X; [now injection X as <- | discriminate X]. }
      apply resident_data_missing in E. apply E.
      rewrite <- Hplot. now apply in_map.
Qed.

Lemma offered_plots_are_found_witness :
  NoDup [L1 "5"; L1 "10"]
  /\ (forall plot,
        In plot [L1 "5"; L1 "10"] <->
        exists r, In r (residents two_lanes) /\ Lane_No r = L1 "2"
                  /\ Plot_No r = plot)
  /\ (forall plot,
        In plot [L1 "5"; L1 "10"] ->
        exists r, resident_data two_lanes plot = Ok r
                  /\ In r (residents two_lanes) /\ Plot_No r = plot
                  /\ (NoDup (map Plot_No (residents two_lanes)) ->
                      Lane_No r = L1 "2")).
Proof.
  exact (offered_plots_are_found two_lanes "2" [L1 "5"; L1 "10"] eq_refl).
Defined.

(** X12. The lane selector offers exactly the lanes of the roster, each
    once, and for every offered lane the plot selector has at least one
    plot to offer. *)
Theorem offered_lanes_have_plots (df : roster) (lanes : list str) :
  unique_lanes df = Ok lanes ->
  NoDup lanes
  /\ (forall lane,
        In lane lanes <-> exists r, In r (residents df) /\ Lane_No r = lane)
  /\ (forall lane plots,
        In lane lanes -> filtered_plots df lane = Ok plots -> plots <> []).
Proof.
  unfold unique_lanes. intros H. apply sorted_natural_perm in H.
  assert (Hin : forall lane,
             In lane lanes <->
             exists r, In r (residents df) /\ Lane_No r = lane).
  { intros lane. rewrite (Permutation_In_iff _ _ lane H), unique_In, in_map_iff.
    split; intros (r & A & B); eauto. }
  split; [|split; [exact Hin|]].
  - eapply Permutation_NoDup; [exact H | apply unique_NoDup].
  - intros lane plots Hl Hp Hnil. subst plots.
    apply Hin in Hl. destruct Hl as (r & Hr & Hlane).
    unfold filtered_plots in Hp. apply sorted_natural_perm in Hp.
    apply Permutation_sym, Permutation_nil in Hp.
    assert (Hx : In (Plot_No r)
                   (unique (map Plot_No
                      (filter (fun r => str_eqb (Lane_No r) lane)
                              (residents df))))).
    { apply unique_In, in_map, filter_In. split; [exact Hr|].
      now apply str_eqb_eq. }
    rewrite Hp in Hx. destruct Hx.
Qed.

Lemma offered_lanes_have_plots_witness :
  NoDup [L1 "1"; L1 "2"]
  /\ (forall lane,
        In lane [L1 "1"; L1 "2"] <->
        exists r, In r (residents two_lanes) /\ Lane_No r = lane)
  /\ (forall lane plots,
        In lane [L1 "1"; L1 "2"] -> filtered_plots two_lanes lane = Ok plots ->
        plots <> []).
Proof.
  exact (offered_lanes_have_plots two_lanes [L1 "1"; L1 "2"] eq_refl).
Defined.

(** X13. A selected plot that is not a plot number of the roster stops the
    page before anything is shown or written; with an empty roster every run
    of the page stops with an IndexError. *)
Theorem unknown_plot_stops_page (df : roster) (ss : session) (w : remote) :
  (~ In (selected_plot ss) (map Plot_No (residents df)) ->
   exists e, page df ss w = (Raise e, w))
  /\ (residents df = [] -> page df ss w = (Raise IndexError, w)).
Proof.
  split.
  - intros H. apply resident_data_missing in H.
    unfold page, bindM, lift.
    destruct (unique_lanes df) as [lanes|e]; [|eauto].
    destruct (filtered_plots df (selected_lane ss)) as [plots|e]; [|eauto].
    rewrite H. eauto.
  - intros H. unfold page, bindM, lift, unique_lanes, filtered_plots,
      resident_data. rewrite H. reflexivity.
Qed.

Lemma unknown_plot_stops_page_witness :
  (exists e,
     page two_lanes
       {| selected_lane := "1"; selected_plot := "77"; chosen := q2_2024;
          filled := paid_900; submitted := true; now := "t" |} empty_sheet
     = (Raise e, empty_sheet))
  /\ page {| residents := []; has_past_dues := false |} (visit "1") empty_sheet
     = (Raise IndexError, empty_sheet).
Proof.
  split.
  - apply (proj1 (unknown_plot_stops_page two_lanes
             {| selected_lane := "1"; selected_plot := "77"; chosen := q2_2024;
                filled := paid_900; submitted := true; now := "t" |}
             empty_sheet)).
    simpl. intros [H|[H|[H|[]]]]; discriminate H.
  - apply (proj2 (unknown_plot_stops_page
             {| residents := []; has_past_dues := false |} (visit "1")
             empty_sheet)).
    reflexivity.
Defined.

(** ** The dues banner *)





(** ** Natural sort key: case and numbers *)

Ltac each_char c :=
  destruct c as [[[|] [|] [|] [|] [|] [|] [|] [|]]|]; vm_compute; try reflexivity.

Lemma re_digit_lower (c : char) : re_digit (char_lower c) = re_digit c.
Proof. each_char c. Qed.

Lemma char_isdigit_lower (c : char) :
  char_isdigit (char_lower c) = char_isdigit c.
Proof. each_char c. Qed.

Lemma char_lower_idem (c : char) : char_lower (char_lower c) = char_lower c.
Proof. each_char c. Qed.

Lemma char_lower_digit (c : char) : char_isdigit c = true -> char_lower c = c.
Proof. each_char c; intros H; discriminate H. Qed.

Lemma lower_idem (s : str) : lower (lower s) = lower s.
Proof.
  unfold lower. rewrite map_map. apply map_ext. apply char_lower_idem.
Qed.

Lemma re_split_digits_lower (s : str) :
  re_split_digits (lower s) = map lower (re_split_digits s).
Proof.
  induction s as [|c s IH]; [reflexivity|].
  simpl. rewrite IH, re_digit_lower.
  destruct (re_split_digits s) as [|piece rest]; [reflexivity|].
  simpl. destruct (re_digit c); [|reflexivity].
  destruct piece as [|x piece]; [|reflexivity].
  destruct rest; reflexivity.
Qed.

Lemma forallb_isdigit_lower (s : str) :
  forallb char_isdigit (lower s) = forallb char_isdigit s.
Proof.
  induction s as [|x s IH]; [reflexivity|].
  simpl. now rewrite char_isdigit_lower, IH.
Qed.

Lemma key_token_lower (c : str) : key_token (lower c) = key_token c.
Proof.
  unfold key_token.
  assert (Hd : isdigit (lower c) = isdigit c).
  { destruct c as [|x c]; [reflexivity|].
    change (isdigit (lower (x :: c)))
      with (forallb char_isdigit (lower (x :: c))).
    apply forallb_isdigit_lower. }
  rewrite Hd. destruct (isdigit c) eqn:E.
  - assert (Hid : lower c = c).
    { destruct c as [|x c]; [reflexivity|]. unfold isdigit in E.
      rewrite forallb_forall in E. unfold lower.
      rewrite <- (map_id (x :: c)) at 2. apply map_ext_in.
      intros y Hy. apply char_lower_digit. now apply E. }
    now rewrite Hid.
  - now rewrite lower_idem.
Qed.

Lemma map_result_map {A B C : Type} (f : B -> result C) (g : A -> B)
    (l : list A) :
  map_result f (map g l) = map_result (fun x => f (g x)) l.
Proof.
  induction l as [|x l IH]; simpl; [reflexivity|]. now rewrite IH.
Qed.

Lemma map_result_ext {A B : Type} (f g : A -> result B) (l : list A) :
  (forall x, f x = g x) -> map_result f l = map_result g l.
Proof.
  intros H. induction l as [|x l IH]; simpl; [reflexivity|].
  now rewrite H, IH.
Qed.

Lemma natural_key_lower (s : str) : natural_key (lower s) = natural_key s.
Proof.
  unfold natural_key. rewrite re_split_digits_lower, map_result_map.
  apply map_result_ext. apply key_token_lower.
Qed.

(** X16. The natural key does not see case: two labels that are equal after
    lowercasing get the same key, or the same exception. *)
Theorem natural_key_ignores_case (a b : str) :
  lower a = lower b -> natural_key a = natural_key b.
Proof.
  intros H. rewrite <- (natural_key_lower a), <- (natural_key_lower b).
  now rewrite H.
Qed.

Lemma natural_key_ignores_case_witness :
  natural_key "LANE 7b" = natural_key "Lane 7B".
Proof.
  apply natural_key_ignores_case. reflexivity.
Defined.

Lemma re_split_digits_prefix_number (p d : str) :
  Forall (fun c => re_digit c = false) p ->
  d <> [] -> Forall (fun c => re_digit c = true) d ->
  re_split_digits (p ++ d) = [p; d; []].
Proof.
  intros Hp Hne Hd. symmetry.
  eapply (split_ok_unique [p; d; []] _ true true).
  - simpl. repeat split; auto.
  - apply re_split_digits_shape.
  - rewrite re_split_digits_concat. simpl. now rewrite !app_nil_r.
Qed.

(** X17. After a common prefix without digits, labels that end in a number
    are ordered by the value of the number, not by its digits: the keys
    compare as the numbers do, and they are equal exactly when the numbers are
    (so leading zeros do not count). *)
Theorem number_after_prefix_compares_by_value
    (p d1 d2 : str) (k1 k2 : list token) :
  Forall (fun c => re_digit c = false) p ->
  d1 <> [] -> Forall (fun c => re_digit c = true) d1 ->
  d2 <> [] -> Forall (fun c => re_digit c = true) d2 ->
  natural_key (p ++ d1) = Ok k1 ->
  natural_key (p ++ d2) = Ok k2 ->
  key_lt k1 k2 = Ok (digits_val d1 <? digits_val d2)
  /\ (k1 = k2 <-> digits_val d1 = digits_val d2).
Proof.
  intros Hp Hn1 Hd1 Hn2 Hd2. unfold natural_key.
  rewrite !re_split_digits_prefix_number by assumption.
  simpl. rewrite (key_token_run d1 Hn1 Hd1), (key_token_run d2 Hn2 Hd2).
  destruct (key_token p) as [t|e]; simpl; [|discriminate].
  intros [= <-] [= <-]. simpl. rewrite token_eqb_refl. simpl.
  destruct (Z.eqb_spec (digits_val d1) (digits_val d2)) as [E|N]; split.
  - rewrite E, Z.ltb_irrefl. reflexivity.
  - split; [now intros _ | intros _; now rewrite E].
  - reflexivity.
  - split; [now intros [= ?] | intros; contradiction].
Qed.

Lemma number_after_prefix_compares_by_value_witness :
  key_lt [TStr "plot "; TInt 9; TStr ""] [TStr "plot "; TInt 10; TStr ""]
    = Ok (digits_val "009" <? digits_val "10")
  /\ ([TStr (L1 "plot "); TInt 9; TStr (L1 "")]
      = [TStr (L1 "plot "); TInt 10; TStr (L1 "")]
      <-> digits_val "009" = digits_val "10").
Proof.
  apply (number_after_prefix_compares_by_value "Plot " "009" "10");
    try reflexivity; try discriminate; repeat constructor.
Defined.

(** ** The history view *)

Lemma positions_from_spec (label : str) (cols : list str) :
  forall (start j : nat),
    In j (positions_from start label cols) <->
    (start <= j)%nat /\ nth_error cols (j - start) = Some label.
Proof.
  induction cols as [|c cols IH]; intros start j; simpl.
  - split; [easy|]. intros [_ H]. now destruct (j - start)%nat.
  - assert (Hrest : In j (positions_from (S start) label cols) <->
                    (start < j)%nat
                    /\ nth_error (c :: cols) (j - start) = Some label).
    { rewrite IH. split.
      - intros [Hle H]. split; [lia|].
        replace (j - start)%nat with (S (j - S start)) by lia. exact H.
      - intros [Hlt H]. split; [lia|].
        replace (j - start)%nat with (S (j - S start)) in H by lia. exact H. }
    destruct (str_eqb c label) eqn:E.
    + apply str_eqb_eq in E. subst c. simpl. rewrite Hrest. split.
      * intros [<-|[Hlt H]]; [|split; [lia | exact H]].
        split; [lia|]. now rewrite Nat.sub_diag.
      * intros [Hle H]. destruct (Nat.eq_dec start j) as [->|N]; [now left|].
        right. split; [lia | exact H].
    + apply str_eqb_neq in E. rewrite Hrest. split.
      * intros [Hlt H]. split; [lia | exact H].
      * intros [Hle H]. split; [|exact H].
        destruct (Nat.eq_dec start j) as [->|N]; [|lia].
        rewrite Nat.sub_diag in H. simpl in H. congruence.
Qed.

Lemma positions_spec (label : str) (cols : list str) (j : nat) :
  In j (positions label cols) <-> nth_error cols j = Some label.
Proof.
  unfold positions. rewrite positions_from_spec, Nat.sub_0_r.
  split; [now intros [_ H] | intros H; split; [lia | exact H]].
Qed.

Lemma select_positions_spec (labels cols : list str) (idx : list nat) :
  select_positions labels cols = Some idx ->
  (forall j, In j idx <->
             exists l, In l labels /\ nth_error cols j = Some l)
  /\ (forall l, In l labels -> In l cols).
Proof.
  revert idx. induction labels as [|l labels IH]; intros idx; simpl.
  - intros [= <-]. split; [|easy]. intros j. split; [easy|]. now intros (l & [] & _).
  - destruct (positions l cols) as [|j0 here] eqn:Ep; [discriminate|].
    destruct (select_positions labels cols) as [rest|]; [|discriminate].
    intros [= <-]. destruct (IH rest eq_refl) as [IHa IHb]. split.
    + intros j. change (j0 :: here ++ rest) with ((j0 :: here) ++ rest).
      rewrite in_app_iff, <- Ep, positions_spec, IHa. split.
      * intros [H|(l' & Hl & H)]; eauto.
      * intros (l' & [<-|Hl] & H); eauto.
    + intros l' [<-|Hl]; [|now apply IHb].
      assert (H : In j0 (positions l cols)) by (rewrite Ep; now left).
      apply positions_spec in H. eapply nth_error_In; eassumption.
Qed.





Section HistoryFacts.

Variable cell : Type.
Variable str_of : cell -> str.
Variable text : str -> cell.

(** [str] of a [str] object is the object itself. *)
Hypothesis str_of_text : forall s, str_of (text s) = s.




Lemma positions_nil (label : str) (cols : list str) :
  positions label cols = [] <-> ~ In label cols.
Proof.
  split.
  - intros H Hin. apply In_nth_error in Hin. destruct Hin as [j Hj].
    apply positions_spec in Hj. rewrite H in Hj. destruct Hj.
  - intros H. destruct (positions label cols) as [|j l] eqn:E; [reflexivity|].
    exfalso. apply H. assert (Hj : In j (positions label cols))
      by (rewrite E; now left).
    apply positions_spec in Hj. eapply nth_error_In; eassumption.
Qed.



Lemma positions_from_app (label : str) (a b : list str) (start : nat) :
  positions_from start label (a ++ b)
  = positions_from start label a
    ++ positions_from (start + List.length a) label b.
Proof.
  revert start. induction a as [|c a IH]; intros start; simpl.
  - now rewrite Nat.add_0_r.
  - rewrite IH. replace (S start + List.length a)%nat
      with (start + S (List.length a))%nat by lia.
    now destruct (str_eqb c label).
Qed.

Lemma positions_appended (label : str) (cols : list str) :
  ~ In label cols ->
  positions label (cols ++ [label]) = [List.length cols].
Proof.
  intros H. unfold positions. rewrite positions_from_app.
  apply positions_nil in H. unfold positions in H. rewrite H. simpl.
  now rewrite str_eqb_refl.
Qed.

Lemma select_positions_last (labels cols : list str) (l : str)
    (idx : list nat) :
  select_positions (labels ++ [l]) cols = Some idx ->
  exists front, select_positions labels cols = Some front
                /\ idx = front ++ positions l cols.
Proof.
  revert idx. induction labels as [|l0 labels IH]; intros idx; simpl.
  - destruct (positions l cols) as [|j here]; [discriminate|].
    intros [= <-]. exists []. now rewrite app_nil_r.
  - destruct (positions l0 cols) as [|j here]; [discriminate|].
    destruct (select_positions (labels ++ [l]) cols) as [rest|];
      [|discriminate].
    intros [= <-]. destruct (IH rest eq_refl) as (front & -> & ->).
    exists (j :: here ++ front). split; [reflexivity|].
    simpl. now rewrite app_assoc.
Qed.

Lemma set_nth_length {A : Type} (i : nat) (x : A) (l : list A) :
  List.length (set_nth i x l) = List.length l.
Proof.
  revert i. induction l as [|y l IH]; intros [|i]; simpl; auto.
Qed.

Lemma astype_length (i : nat) (row : list cell) :
  List.length (astype_str_at cell str_of text i row) = List.length row.
Proof.
  unfold astype_str_at. destruct (nth_error row i); [|reflexivity].
  apply set_nth_length.
Qed.

(** X20. In a ledger whose records have a value for each key and in which
    no column is renamed to "Status" (no Verified, verified, Payment verified
    or Status column, names stripped), a shown table has "Status" as its last
    column and no other column of that name, and every shown row ends with
    the text Pending. *)
Theorem history_status_defaults_to_pending (data : records cell)
    (plot_no : str) (cols : list str) (rows : list (list cell)) :
  history cell str_of text (Some data) plot_no = Some (Shown cell cols rows) ->
  Forall (fun r => List.length r = List.length (keys data)) (values data) ->
  (forall k, In k (keys data) ->
             rename_column (py_strip k) <> L1 "Status") ->
  (exists front, cols = front ++ [L1 "Status"]
                 /\ ~ In (L1 "Status") front)
  /\ Forall (fun row => exists cut, row = cut ++ [text "Pending"]) rows.
Proof.
  intros Hh Hlen Hno. unfold history in Hh.
  destruct (values data) as [|v0 vs] eqn:Ev; [discriminate|].
  rewrite <- Ev in Hh.
  set (names := map py_strip (keys data)) in Hh.
  destruct (positions "Plot No" names) as [|i [|i' more]]; try discriminate.
  set (mine := filter _ _) in Hh.
  assert (Hmine : Forall (fun r => List.length r = List.length (keys data))
                         mine).
  { apply Forall_forall. intros r Hr. apply filter_In in Hr.
    destruct Hr as [Hr _]. apply in_map_iff in Hr.
    destruct Hr as (r0 & <- & Hr0). rewrite astype_length.
    rewrite Forall_forall in Hlen. apply Hlen.
    now rewrite <- Ev. }
  destruct mine as [|m0 ms] eqn:Em; [discriminate|]. rewrite <- Em in *.
  clear Em m0 ms.
  set (renamed := map rename_column names) in Hh.
  assert (Hnot : ~ In (L1 "Status") renamed).
  { unfold renamed, names. rewrite map_map. intros H.
    apply in_map_iff in H. destruct H as (k & Hk & Hin).
    exact (Hno k Hin Hk). }
  assert (Hs : existsb (fun c => str_eqb c "Status") renamed = false).
  { destruct (existsb _ renamed) eqn:E; [|reflexivity].
    apply existsb_exists in E. destruct E as (c & Hc & E).
    apply str_eqb_eq in E. subst c. contradiction. }
  rewrite Hs in Hh.
  assert (Hn : List.length renamed = List.length (keys data))
    by (unfold renamed, names; now rewrite !length_map).
  destruct (select_positions SHOWN_COLUMNS _) as [idx|] eqn:Es;
    [|discriminate].
  change SHOWN_COLUMNS
    with ([L1 "Date"; L1 "Period"; L1 "Amt"; L1 "UTR"] ++ [L1 "Status"]) in Es.
  apply select_positions_last in Es. destruct Es as (front & Hf & ->).
  rewrite (positions_appended _ _ Hnot) in Hh.
  apply select_positions_spec in Hf. destruct Hf as [Hf _].
  injection Hh as <- <-. split.
  - rewrite flat_map_app. eexists. split.
    + f_equal. simpl. rewrite nth_error_app2, Nat.sub_diag by lia.
      reflexivity.
    + intros H. apply in_flat_map in H. destruct H as (j & Hj & H).
      apply Hf in Hj. destruct Hj as (l & Hl & Hj). rewrite Hj in H.
      destruct H as [->|[]]. simpl in Hl. intuition discriminate.
  - apply Forall_forall. intros row Hrow. apply in_map_iff in Hrow.
    destruct Hrow as (r & <- & Hr). apply in_map_iff in Hr.
    destruct Hr as (r0 & <- & Hr0).
    rewrite Forall_forall in Hmine. specialize (Hmine r0 Hr0).
    unfold project. rewrite flat_map_app. eexists. f_equal. simpl.
    rewrite Hn, <- Hmine, nth_error_app2, Nat.sub_diag by lia.
    reflexivity.
Qed.

End HistoryFacts.



Lemma history_status_defaults_to_pending_witness :
  (exists front, SHOWN_COLUMNS = front ++ [L1 "Status"]
                 /\ ~ In (L1 "Status") front)
  /\ Forall (fun row => exists cut, row = cut ++ [L1 "Pending"])
       [ map L1 ["2024-05-01"; "Apr 2024"; "300.0"; "UTR1"; "Pending"];
         map L1 ["2024-05-03"; "May 2024"; "300.0"; "UTR3"; "Pending"] ].
Proof.
  apply (history_status_defaults_to_pending str (fun s => s) (fun s => s)
           sample_ledger "A5").
  - reflexivity.
  - repeat constructor.
  - intros k Hk. simpl in Hk.
    repeat (destruct Hk as [<-|Hk]; [vm_compute; discriminate|]).
    destruct Hk.
Defined.
